(** * Asteroid Destroyer: the simulation core of [game.js]

    A shallow embedding of the game state, the per-frame update loop, the
    scoring and session logic of [src/game.js], and the properties of the
    specification that concern them.

    JavaScript numbers are kept abstract behind the class [Number]; the
    functions of the game are written once, over any instance.  Two
    instances are given: exact real arithmetic ([R_Number], used for the
    general laws) and IEEE 754 binary64 ([F64_Number], the arithmetic a
    JavaScript engine really performs, used to run the code on concrete
    inputs). *)

From Stdlib Require Import ZArith List Bool Lia Reals Lra.
From Stdlib Require Floats.
From stdpp Require Import base list.
Import ListNotations.

(** ** Numbers *)

(** The arithmetic and the comparisons the game performs on numbers.
    [n_ltb x y] is [x < y], [n_leb x y] is [x <= y]; the source's [x > y]
    is [n_ltb y x]. *)
Class Number (A : Type) := {
  ofZ : Z -> A;
  n_add : A -> A -> A;
  n_sub : A -> A -> A;
  n_mul : A -> A -> A;
  n_div : A -> A -> A;
  n_ltb : A -> A -> bool;
  n_leb : A -> A -> bool
}.

(** The members of the JavaScript [Math] object the game calls.
    [Math_floor] returns the integer itself: every use in the source is either a
    loop bound or a [switch] selector.  [Math_pow2 x] is [Math.pow(x, 2)].
    [undefined_num] is what arithmetic on [undefined] yields (NaN); it
    appears only after the [switch] of [spawnAsteroid], when no case is
    taken. *)
Class MathObj (A : Type) := {
  Math_PI : A;
  Math_sqrt : A -> A;
  Math_cos : A -> A;
  Math_sin : A -> A;
  Math_floor : A -> Z;
  Math_round : A -> A;
  Math_min : A -> A -> A;
  Math_max : A -> A -> A;
  Math_pow2 : A -> A;
  undefined_num : A
}.

Declare Scope num_scope.
Delimit Scope num_scope with num.
Notation "x + y" := (n_add x y) : num_scope.
Notation "x - y" := (n_sub x y) : num_scope.
Notation "x * y" := (n_mul x y) : num_scope.
Notation "x / y" := (n_div x y) : num_scope.
Notation "x <? y" := (n_ltb x y) : num_scope.
Notation "x <=? y" := (n_leb x y) : num_scope.
Notation "x >? y" := (n_ltb y x) : num_scope.
Notation "# n" := (ofZ n%Z) (at level 1, format "# n") : num_scope.

(** A decimal literal of the source, [n / d] with [d] a power of ten.  In
    binary64 the correctly rounded quotient of two exactly representable
    integers is the double nearest to the decimal, which is the value the
    literal denotes. *)
Definition frac {A} `{Number A} (n d : Z) : A := (#n / #d)%num.

(** *** Exact real arithmetic *)

Definition Rltb (x y : R) : bool := if Rlt_dec x y then true else false.
Definition Rleb (x y : R) : bool := if Rle_dec x y then true else false.

#[export] Instance R_Number : Number R := {|
  ofZ := IZR;
  n_add := Rplus;
  n_sub := Rminus;
  n_mul := Rmult;
  n_div := Rdiv;
  n_ltb := Rltb;
  n_leb := Rleb
|}.

(** [Math.round] rounds to the nearest integer, ties towards +infinity:
    [floor (x + 1/2)]. *)
#[export] Instance R_Math : MathObj R := {|
  Math_PI := PI;
  Math_sqrt := sqrt;
  Math_cos := cos;
  Math_sin := sin;
  Math_floor := Int_part;
  Math_round := fun x => IZR (Int_part (x + / 2));
  Math_min := Rmin;
  Math_max := Rmax;
  Math_pow2 := fun x => (x * x)%R;
  undefined_num := 0%R
|}.

(** *** IEEE 754 binary64 *)

(** Integers of magnitude below 2^53 convert exactly. *)
Definition Z2F (z : Z) : PrimFloat.float :=
  if (z <? 0)%Z then PrimFloat.opp (PrimFloat.of_uint63 (Uint63.of_Z (- z)))
  else PrimFloat.of_uint63 (Uint63.of_Z z).

#[export] Instance F64_Number : Number PrimFloat.float := {|
  ofZ := Z2F;
  n_add := PrimFloat.add;
  n_sub := PrimFloat.sub;
  n_mul := PrimFloat.mul;
  n_div := PrimFloat.div;
  n_ltb := PrimFloat.ltb;
  n_leb := PrimFloat.leb
|}.

(** [Math.floor] of a double, as an integer: the floor of
    [(-1)^s * m * 2^e].  For NaN and the infinities, which have no floor,
    the result is -1: as a loop bound it gives no iteration and as a
    [switch] selector no case, which is what NaN gives in the source. *)
Definition F64_floor (x : PrimFloat.float) : Z :=
  match FloatOps.Prim2SF x with
  | SpecFloat.S754_zero _ => 0%Z
  | SpecFloat.S754_finite s m e =>
      let sm := if s then Z.neg m else Z.pos m in
      if (0 <=? e)%Z then (sm * 2 ^ e)%Z else (sm / 2 ^ (- e))%Z
  | _ => (-1)%Z
  end.

(** [Math.round] of a double: the nearest integer, ties towards
    +infinity; a double with no fractional bit, a zero, NaN and the
    infinities are returned as they are; a negative number that rounds to
    zero gives -0. *)
Definition F64_round (x : PrimFloat.float) : PrimFloat.float :=
  match FloatOps.Prim2SF x with
  | SpecFloat.S754_finite s m e =>
      if (0 <=? e)%Z then x else
      let sm := if s then Z.neg m else Z.pos m in
      let z := ((2 * sm + 2 ^ (- e)) / 2 ^ (1 - e))%Z in
      if (z =? 0)%Z then (if s then PrimFloat.neg_zero else PrimFloat.zero)
      else Z2F z
  | _ => x
  end.

(** [Math.min] and [Math.max] of two doubles: NaN if either is NaN, and
    -0 is below +0. *)
Definition F64_min (x y : PrimFloat.float) : PrimFloat.float :=
  if PrimFloat.is_nan x || PrimFloat.is_nan y then PrimFloat.nan
  else if PrimFloat.ltb x y then x
  else if PrimFloat.ltb y x then y
  else if PrimFloat.get_sign x then x else y.

Definition F64_max (x y : PrimFloat.float) : PrimFloat.float :=
  if PrimFloat.is_nan x || PrimFloat.is_nan y then PrimFloat.nan
  else if PrimFloat.ltb x y then y
  else if PrimFloat.ltb y x then x
  else if PrimFloat.get_sign x then y else x.

(** The [Math] object in binary64.  The standard leaves [Math.cos] and
    [Math.sin] to the engine (an approximation of its choice), so they are
    parameters here; [Math.PI] is the double nearest to pi,
    7074237752028440 * 2^-51; [Math.pow(x, 2)] is taken as [x * x]. *)
Definition F64_Math (engine_cos engine_sin : PrimFloat.float -> PrimFloat.float)
    : MathObj PrimFloat.float := {|
  Math_PI := PrimFloat.div (Z2F 7074237752028440) (Z2F 2251799813685248);
  Math_sqrt := PrimFloat.sqrt;
  Math_cos := engine_cos;
  Math_sin := engine_sin;
  Math_floor := F64_floor;
  Math_round := F64_round;
  Math_min := F64_min;
  Math_max := F64_max;
  Math_pow2 := fun x => PrimFloat.mul x x;
  undefined_num := PrimFloat.nan
|}.

(** ** The data model *)

Section Data.
Context {A : Type}.

(** [state.fingerPosition]: [{ x, y, detected }]. *)
Record FingerPosition := mkFinger {
  fp_x : A;
  fp_y : A;
  detected : bool
}.

(** An entry of [state.positionHistory]: [{ x, y }]. *)
Record Point := mkPoint { pt_x : A; pt_y : A }.

(** A landmark of the hand tracker, in normalised camera coordinates. *)
Record Landmark := mkLandmark { lm_x : A; lm_y : A }.

(** A vertex of an asteroid's polygon: [{ angle, radius }]. *)
Record Vertex := mkVertex { angle : A; v_radius : A }.

(** The object pushed by [spawnAsteroid]. *)
Record Asteroid := mkAsteroid {
  a_x : A;
  a_y : A;
  a_vx : A;
  a_vy : A;
  a_radius : A;
  rotation : A;
  rotationSpeed : A;
  vertices : list Vertex;
  a_hue : A
}.

(** The object pushed by [createExplosion]. *)
Record Particle := mkParticle {
  p_x : A;
  p_y : A;
  p_vx : A;
  p_vy : A;
  p_radius : A;
  life : A;
  decay : A;
  p_hue : A
}.

(** [state.screenShake]: [{ x, y, intensity }]. *)
Record ScreenShake := mkShake { sh_x : A; sh_y : A; intensity : A }.

(** The global [state] object. *)
Record State := mkState {
  isPlaying : bool;
  score : A;
  highScore : A;
  lives : A;
  combo : A;
  lastDestroyTime : A;
  fingerPosition : FingerPosition;
  positionHistory : list Point;
  asteroids : list Asteroid;
  particles : list Particle;
  screenShake : ScreenShake;
  gameTime : A;
  lastSpawnTime : A;
  handsReady : bool;
  debugMode : bool
}.

(** The two ways [updateAsteroids] removes an asteroid, each recorded with
    the asteroid as it was when removed. *)
Inductive Event :=
  | EvDestroyed (a : Asteroid)
  | EvImpact (a : Asteroid).

(** Everything the modelled functions read or write: the [state] object,
    the module variable [lastFrameTime], and the browser around them: the
    size of the game canvas, the [localStorage] entry [asteroidHighScore],
    the visibility of the [newHighScore] element, the values [Math.random()]
    and [Date.now()] return (the k-th call returns the k-th element of the
    sequence).  [history] is a ghost variable: it lists the removals of
    [updateAsteroids] in the order they happened, and no function reads
    it. *)
Record World := mkWorld {
  state : State;
  lastFrameTime : A;
  canvasWidth : A;
  canvasHeight : A;
  storedHighScore : option A;
  newHighScoreHidden : bool;
  randomSeq : nat -> A;
  randomPos : nat;
  dateSeq : nat -> A;
  datePos : nat;
  history : list Event
}.

(** *** Field updates *)

Definition set_isPlaying (v : bool) (s : State) : State :=
  mkState v (score s) (highScore s) (lives s) (combo s) (lastDestroyTime s)
    (fingerPosition s) (positionHistory s) (asteroids s) (particles s)
    (screenShake s) (gameTime s) (lastSpawnTime s) (handsReady s) (debugMode s).

Definition set_score (v : A) (s : State) : State :=
  mkState (isPlaying s) v (highScore s) (lives s) (combo s) (lastDestroyTime s)
    (fingerPosition s) (positionHistory s) (asteroids s) (particles s)
    (screenShake s) (gameTime s) (lastSpawnTime s) (handsReady s) (debugMode s).

Definition set_highScore (v : A) (s : State) : State :=
  mkState (isPlaying s) (score s) v (lives s) (combo s) (lastDestroyTime s)
    (fingerPosition s) (positionHistory s) (asteroids s) (particles s)
    (screenShake s) (gameTime s) (lastSpawnTime s) (handsReady s) (debugMode s).

Definition set_lives (v : A) (s : State) : State :=
  mkState (isPlaying s) (score s) (highScore s) v (combo s) (lastDestroyTime s)
    (fingerPosition s) (positionHistory s) (asteroids s) (particles s)
    (screenShake s) (gameTime s) (lastSpawnTime s) (handsReady s) (debugMode s).

Definition set_combo (v : A) (s : State) : State :=
  mkState (isPlaying s) (score s) (highScore s) (lives s) v (lastDestroyTime s)
    (fingerPosition s) (positionHistory s) (asteroids s) (particles s)
    (screenShake s) (gameTime s) (lastSpawnTime s) (handsReady s) (debugMode s).

Definition set_lastDestroyTime (v : A) (s : State) : State :=
  mkState (isPlaying s) (score s) (highScore s) (lives s) (combo s) v
    (fingerPosition s) (positionHistory s) (asteroids s) (particles s)
    (screenShake s) (gameTime s) (lastSpawnTime s) (handsReady s) (debugMode s).

Definition set_fingerPosition (v : FingerPosition) (s : State) : State :=
  mkState (isPlaying s) (score s) (highScore s) (lives s) (combo s)
    (lastDestroyTime s) v (positionHistory s) (asteroids s) (particles s)
    (screenShake s) (gameTime s) (lastSpawnTime s) (handsReady s) (debugMode s).

Definition set_positionHistory (v : list Point) (s : State) : State :=
  mkState (isPlaying s) (score s) (highScore s) (lives s) (combo s)
    (lastDestroyTime s) (fingerPosition s) v (asteroids s) (particles s)
    (screenShake s) (gameTime s) (lastSpawnTime s) (handsReady s) (debugMode s).

Definition set_asteroids (v : list Asteroid) (s : State) : State :=
  mkState (isPlaying s) (score s) (highScore s) (lives s) (combo s)
    (lastDestroyTime s) (fingerPosition s) (positionHistory s) v (particles s)
    (screenShake s) (gameTime s) (lastSpawnTime s) (handsReady s) (debugMode s).

Definition set_particles (v : list Particle) (s : State) : State :=
  mkState (isPlaying s) (score s) (highScore s) (lives s) (combo s)
    (lastDestroyTime s) (fingerPosition s) (positionHistory s) (asteroids s) v
    (screenShake s) (gameTime s) (lastSpawnTime s) (handsReady s) (debugMode s).

(** [state.screenShake.intensity = v]. *)
Definition set_intensity (v : A) (s : State) : State :=
  mkState (isPlaying s) (score s) (highScore s) (lives s) (combo s)
    (lastDestroyTime s) (fingerPosition s) (positionHistory s) (asteroids s)
    (particles s)
    (mkShake (sh_x (screenShake s)) (sh_y (screenShake s)) v)
    (gameTime s) (lastSpawnTime s) (handsReady s) (debugMode s).

Definition set_gameTime (v : A) (s : State) : State :=
  mkState (isPlaying s) (score s) (highScore s) (lives s) (combo s)
    (lastDestroyTime s) (fingerPosition s) (positionHistory s) (asteroids s)
    (particles s) (screenShake s) v (lastSpawnTime s) (handsReady s)
    (debugMode s).

Definition set_lastSpawnTime (v : A) (s : State) : State :=
  mkState (isPlaying s) (score s) (highScore s) (lives s) (combo s)
    (lastDestroyTime s) (fingerPosition s) (positionHistory s) (asteroids s)
    (particles s) (screenShake s) (gameTime s) v (handsReady s) (debugMode s).

Definition set_handsReady (v : bool) (s : State) : State :=
  mkState (isPlaying s) (score s) (highScore s) (lives s) (combo s)
    (lastDestroyTime s) (fingerPosition s) (positionHistory s) (asteroids s)
    (particles s) (screenShake s) (gameTime s) (lastSpawnTime s) v
    (debugMode s).

Definition set_debugMode (v : bool) (s : State) : State :=
  mkState (isPlaying s) (score s) (highScore s) (lives s) (combo s)
    (lastDestroyTime s) (fingerPosition s) (positionHistory s) (asteroids s)
    (particles s) (screenShake s) (gameTime s) (lastSpawnTime s)
    (handsReady s) v.

(** [upd f w] applies [f] to the [state] object of [w]. *)
Definition upd (f : State -> State) (w : World) : World :=
  mkWorld (f (state w)) (lastFrameTime w) (canvasWidth w) (canvasHeight w)
    (storedHighScore w) (newHighScoreHidden w) (randomSeq w) (randomPos w)
    (dateSeq w) (datePos w) (history w).

Definition set_lastFrameTime (v : A) (w : World) : World :=
  mkWorld (state w) v (canvasWidth w) (canvasHeight w)
    (storedHighScore w) (newHighScoreHidden w) (randomSeq w) (randomPos w)
    (dateSeq w) (datePos w) (history w).

Definition set_storedHighScore (v : option A) (w : World) : World :=
  mkWorld (state w) (lastFrameTime w) (canvasWidth w) (canvasHeight w)
    v (newHighScoreHidden w) (randomSeq w) (randomPos w)
    (dateSeq w) (datePos w) (history w).

Definition set_newHighScoreHidden (v : bool) (w : World) : World :=
  mkWorld (state w) (lastFrameTime w) (canvasWidth w) (canvasHeight w)
    (storedHighScore w) v (randomSeq w) (randomPos w)
    (dateSeq w) (datePos w) (history w).

(** Appends an event to the ghost history. *)
Definition record (e : Event) (w : World) : World :=
  mkWorld (state w) (lastFrameTime w) (canvasWidth w) (canvasHeight w)
    (storedHighScore w) (newHighScoreHidden w) (randomSeq w) (randomPos w)
    (dateSeq w) (datePos w) (history w ++ [e]).

Definition set_randomPos (v : nat) (w : World) : World :=
  mkWorld (state w) (lastFrameTime w) (canvasWidth w) (canvasHeight w)
    (storedHighScore w) (newHighScoreHidden w) (randomSeq w) v
    (dateSeq w) (datePos w) (history w).

Definition set_datePos (v : nat) (w : World) : World :=
  mkWorld (state w) (lastFrameTime w) (canvasWidth w) (canvasHeight w)
    (storedHighScore w) (newHighScoreHidden w) (randomSeq w) (randomPos w)
    (dateSeq w) v (history w).

(** [Math.random()]: the next element of the sequence. *)
Definition Math_random (w : World) : A * World :=
  (randomSeq w (randomPos w), set_randomPos (S (randomPos w)) w).

(** [Date.now()]: the next reading of the wall clock. *)
Definition Date_now (w : World) : A * World :=
  (dateSeq w (datePos w), set_datePos (S (datePos w)) w).

End Data.

Arguments FingerPosition : clear implicits.
Arguments Point : clear implicits.
Arguments Landmark : clear implicits.
Arguments Vertex : clear implicits.
Arguments Asteroid : clear implicits.
Arguments Particle : clear implicits.
Arguments ScreenShake : clear implicits.
Arguments State : clear implicits.
Arguments Event : clear implicits.
Arguments World : clear implicits.

(** ** The game, part 1: code that needs arithmetic only *)

Section Core.
Context {A : Type} `{Number A}.
Local Open Scope num_scope.

(** *** [CONFIG] *)

Definition initialLives : A := #3.
Definition baseAsteroidSpeed : A := frac 15 10.
Definition asteroidSpawnInterval : A := #2000.
Definition minSpawnInterval : A := #500.
Definition difficultyRampTime : A := #30000.
Definition cursorRadius : A := #60.
Definition comboTimeout : A := #2000.
Definition particleCount : A := #20.
Definition trailLength : nat := 15.
Definition fingerSmoothing : A := frac 3 10.

(** The [state] literal at page load.  [stored] is the [localStorage]
    entry: [parseInt(localStorage.getItem('asteroidHighScore')) || 0]. *)
Definition initialState (stored : option A) : State A :=
  mkState false #0 (match stored with Some v => v | None => #0 end)
    initialLives #1 #0 (mkFinger #0 #0 false) [] [] []
    (mkShake #0 #0 #0) #0 #0 false true.

(** [function lerp(a, b, t) { return a + (b - a) * t; }] *)
Definition lerp (a b t : A) : A := a + (b - a) * t.

(** [onHandResults(results)].  [multiHandLandmarks] is the field of that
    name of [results] ([None] when it is absent); each hand is its array
    of landmarks.  Drawing is left out, but [drawHandSkeleton] reads the
    landmarks 0 to 20 and the function then reads landmark 8: with fewer
    than 21 landmarks the source throws before it writes anything, which is
    the result [None].  With [debugMode] set, the branch without a hand
    draws one random number. *)
Definition onHandResults (multiHandLandmarks : option (list (list (Landmark A))))
    (w : World A) : option (World A) :=
  match multiHandLandmarks with
  | Some (landmarks :: _) =>
      if (length landmarks <? 21)%nat then None else
      match landmarks !! 8%nat with
      | None => None
      | Some indexTip =>
          let gameX := (#1 - lm_x indexTip) * canvasWidth w in
          let gameY := lm_y indexTip * canvasHeight w in
          let fp := fingerPosition (state w) in
          let fp' :=
            if detected fp
            then mkFinger (lerp (fp_x fp) gameX fingerSmoothing)
                          (lerp (fp_y fp) gameY fingerSmoothing) true
            else mkFinger gameX gameY true in
          let pushed :=
            positionHistory (state w) ++ [mkPoint (fp_x fp') (fp_y fp')] in
          let trail :=
            if (trailLength <? length pushed)%nat then drop 1 pushed
            else pushed in
          Some (upd (fun s => set_positionHistory trail
                                (set_fingerPosition fp' s)) w)
      end
  | _ =>
      let fp := fingerPosition (state w) in
      let w1 := upd (set_fingerPosition (mkFinger (fp_x fp) (fp_y fp) false)) w in
      Some (if debugMode (state w1) then snd (Math_random w1) else w1)
  end.

(** *** Particles *)

(** The body of the loop of [updateParticles] up to the test: the in-place
    update of one particle. *)
Definition stepParticle (p : Particle A) : Particle A :=
  mkParticle (p_x p + p_vx p) (p_y p + p_vy p)
    (p_vx p * frac 98 100) (p_vy p * frac 98 100)
    (p_radius p * frac 97 100) (life p - decay p) (decay p) (p_hue p).

(** The test [p.life <= 0 || p.radius < 0.5]. *)
Definition isDead (p : Particle A) : bool :=
  (life p <=? #0) || (p_radius p <? frac 5 10).

(** One iteration of the loop of [updateParticles], at index [i]:
    [state.particles[i]] is updated in place and spliced out when dead.
    Reading a field of [undefined] throws: [None]. *)
Definition updateParticleAt (i : nat) (w : World A) : option (World A) :=
  match particles (state w) !! i with
  | None => None
  | Some p =>
      let w1 := upd (fun s => set_particles (<[i := stepParticle p]> (particles s)) s) w in
      if isDead (stepParticle p)
      then Some (upd (fun s => set_particles (delete i (particles s)) s) w1)
      else Some w1
  end.

(** [for (let i = n - 1; i >= 0; i--)]. *)
Fixpoint updateParticlesFrom (n : nat) (w : World A) : option (World A) :=
  match n with
  | O => Some w
  | S i =>
      match updateParticleAt i w with
      | None => None
      | Some w' => updateParticlesFrom i w'
      end
  end.

Definition updateParticles (w : World A) : option (World A) :=
  updateParticlesFrom (length (particles (state w))) w.

(** *** Session *)

(** [gameOver()]; the delayed display of the game-over screen and the text
    fields are presentation. *)
Definition gameOver (w : World A) : World A :=
  let w1 := upd (set_isPlaying false) w in
  if score (state w1) >? highScore (state w1) then
    let w2 := upd (fun s => set_highScore (score s) s) w1 in
    let w3 := set_storedHighScore (Some (highScore (state w2))) w2 in
    set_newHighScoreHidden false w3
  else set_newHighScoreHidden true w1.

(** [loseLife()]. *)
Definition loseLife (w : World A) : World A :=
  let w1 := upd (fun s => set_lives (lives s - #1) s) w in
  if lives (state w1) <=? #0 then gameOver w1 else w1.

(** The assignments of [startGame] under the comment "Reset game state". *)
Definition resetGameState (s : State A) : State A :=
  set_debugMode false
    (set_positionHistory []
      (set_fingerPosition (mkFinger #0 #0 false)
        (set_lastSpawnTime #0
          (set_gameTime #0
            (set_particles []
              (set_asteroids []
                (set_combo #1
                  (set_lives initialLives
                    (set_score #0
                      (set_isPlaying true s)))))))))).

(** [startGame()].  [webcamReady] is what [await initWebcam()] returned and
    [perfNow] what [performance.now()] returns at the end.
    [initHandTracking] sets [state.handsReady] on both of its paths.  The
    first [requestAnimationFrame(gameLoop)] is the browser's part. *)
Definition startGame (webcamReady : bool) (perfNow : A) (w : World A) : World A :=
  if negb webcamReady then w else
  let w1 := upd (set_handsReady true) w in
  let w2 := upd resetGameState w1 in
  set_lastFrameTime perfNow w2.

(** *** The fallback tracker *)

(** [Math.abs(x)], up to the sign of a zero (which no comparison sees):
    [-x] is [0 - x]. *)
Definition Math_abs (x : A) : A := if x <? #0 then #0 - x else x.

(** [x === 0] on numbers: both zeros are equal to 0, NaN is not. *)
Definition isZero (x : A) : bool := (x <=? #0) && (#0 <=? x).

(** [isSkinColor(r, g, b)]. *)
Definition isSkinColor (r g b : A) : bool :=
  let rule1 :=
    (r >? #95) && (g >? #40) && (b >? #20)
    && (r >? g) && (r >? b)
    && (Math_abs (r - g) >? #15)
    && (r - b >? #15) in
  let sum := r + g + b in
  if isZero sum then false else
  let nr := r / sum in
  let ng := g / sum in
  let rule2 := (nr >? frac 35 100) && (nr <? frac 6 10)
               && (ng >? frac 25 100) && (ng <? frac 4 10) in
  rule1 || rule2.

(** The body of the inner loop of [trackSkinColor] at the pixel [(x, y)]:
    [data] is the array of the image data (four bytes a pixel), [width] the
    width of the tracking canvas.  The highlight written back into [data]
    is not read again (every pixel is visited once). *)
Definition samplePixel (width : nat) (data : nat -> A) (y : nat)
    (acc : A * A * A) (x : nat) : A * A * A :=
  let '(sumX, sumY, count) := acc in
  let i := ((y * width + x) * 4)%nat in
  let r := data i in
  let g := data (i + 1)%nat in
  let b := data (i + 2)%nat in
  if isSkinColor r g b
  then (sumX + #(Z.of_nat x), sumY + #(Z.of_nat y), count + #1)
  else acc.

(** [for (let x = 0; x < canvas.width; x += 2)], from [x] on; [fuel]
    bounds the number of iterations. *)
Fixpoint scanRow (fuel : nat) (width : nat) (data : nat -> A) (y x : nat)
    (acc : A * A * A) : A * A * A :=
  match fuel with
  | O => acc
  | S fuel' =>
      if (x <? width)%nat
      then scanRow fuel' width data y (x + 2)%nat (samplePixel width data y acc x)
      else acc
  end.

(** [for (let y = 0; y < canvas.height; y += 2)], from [y] on. *)
Fixpoint scanRows (fuel : nat) (width height : nat) (data : nat -> A) (y : nat)
    (acc : A * A * A) : A * A * A :=
  match fuel with
  | O => acc
  | S fuel' =>
      if (y <? height)%nat
      then scanRows fuel' width height data (y + 2)%nat
             (scanRow width width data y 0%nat acc)
      else acc
  end.

(** [trackSkinColor()].  [videoReady] is
    [video.readyState === video.HAVE_ENOUGH_DATA]; [width] and [height] are
    the size of the tracking canvas and [data] the image data read back
    from it after the (mirrored) video frame has been drawn.  Drawing is
    left out. *)
Definition trackSkinColor (videoReady : bool) (width height : nat)
    (data : nat -> A) (w : World A) : World A :=
  if negb videoReady then w else
  let '(sumX, sumY, count) :=
    scanRows height width height data 0%nat (#0, #0, #0) in
  if count >? #50 then
    let centerX := sumX / count in
    let centerY := sumY / count in
    let gameX := (centerX / #(Z.of_nat width)) * canvasWidth w in
    let gameY := (centerY / #(Z.of_nat height)) * canvasHeight w in
    let fp := fingerPosition (state w) in
    let fp' :=
      if detected fp
      then mkFinger (lerp (fp_x fp) gameX fingerSmoothing)
                    (lerp (fp_y fp) gameY fingerSmoothing) true
      else mkFinger gameX gameY true in
    let pushed :=
      positionHistory (state w) ++ [mkPoint (fp_x fp') (fp_y fp')] in
    let trail :=
      if (trailLength <? length pushed)%nat then drop 1 pushed
      else pushed in
    upd (fun s => set_positionHistory trail (set_fingerPosition fp' s)) w
  else
    let fp := fingerPosition (state w) in
    upd (set_fingerPosition (mkFinger (fp_x fp) (fp_y fp) false)) w.

(** [trackLoop] of [startFallbackTracking], up to its
    [requestAnimationFrame]. *)
Definition trackLoop (videoReady : bool) (width height : nat)
    (data : nat -> A) (w : World A) : World A :=
  if negb (isPlaying (state w)) then w
  else trackSkinColor videoReady width height data w.

End Core.

(** ** The game, part 2: code that calls [Math] *)

Section Simulation.
Context {A : Type} `{Number A} `{MathObj A}.
Local Open Scope num_scope.

(** *** Spawning *)

(** [generateAsteroidShape()]: the loop, [n] iterations left, at index
    [i]. *)
Fixpoint shapeLoop (n : nat) (i numVertices : Z) (vs : list (Vertex A))
    (w : World A) : list (Vertex A) * World A :=
  match n with
  | O => (vs, w)
  | S n' =>
      let angle := (#i / #numVertices) * Math_PI * #2 in
      let '(r, w1) := Math_random w in
      let radius := frac 7 10 + r * frac 3 10 in
      shapeLoop n' (i + 1)%Z numVertices (vs ++ [mkVertex angle radius]) w1
  end.

(** [generateAsteroidShape()].  [numVertices] is an integer (8 plus a
    floor), and the loop [for (i = 0; i < numVertices; i++)] runs that many
    times. *)
Definition generateAsteroidShape (w : World A) : list (Vertex A) * World A :=
  let '(r, w1) := Math_random w in
  let k := Math_floor (r * #5) in
  let numVertices := (8 + k)%Z in
  shapeLoop (Z.to_nat numVertices) 0%Z numVertices [] w1.

(** [difficultyMultiplier] of [spawnAsteroid], as a function of
    [state.gameTime]. *)
Definition difficultyMultiplier (gameTime : A) : A :=
  Math_min #2 (#1 + gameTime / difficultyRampTime).

(** [spawnInterval] of [gameLoop], as a function of [state.gameTime]. *)
Definition spawnInterval (gameTime : A) : A :=
  Math_max minSpawnInterval (asteroidSpawnInterval - gameTime / #100).

(** The [switch (side)] of [spawnAsteroid]: the spawn point.  When no
    case is taken [x] and [y] stay undefined. *)
Definition spawnPoint (side : Z) (w : World A) : A * A * World A :=
  match side with
  | 0%Z => let '(r, w1) := Math_random w in (r * canvasWidth w, #(-50), w1)
  | 1%Z => let '(r, w1) := Math_random w in (canvasWidth w + #50, r * canvasHeight w, w1)
  | 2%Z => let '(r, w1) := Math_random w in (r * canvasWidth w, canvasHeight w + #50, w1)
  | 3%Z => let '(r, w1) := Math_random w in (#(-50), r * canvasHeight w, w1)
  | _ => (undefined_num, undefined_num, w)
  end.

(** [spawnAsteroid()]; the random numbers are drawn in the order the
    source evaluates them. *)
Definition spawnAsteroid (w : World A) : World A :=
  let '(r0, w) := Math_random w in
  let side := Math_floor (r0 * #4) in
  let '(x, y, w) := spawnPoint side w in
  let '(r1, w) := Math_random w in
  let centerX := canvasWidth w / #2 + (r1 - frac 5 10) * #200 in
  let '(r2, w) := Math_random w in
  let centerY := canvasHeight w / #2 + (r2 - frac 5 10) * #200 in
  let dx := centerX - x in
  let dy := centerY - y in
  let dist := Math_sqrt (dx * dx + dy * dy) in
  let '(r3, w) := Math_random w in
  let speed := baseAsteroidSpeed * difficultyMultiplier (gameTime (state w))
               * (frac 8 10 + r3 * frac 4 10) in
  let '(r4, w) := Math_random w in
  let '(r5, w) := Math_random w in
  let '(r6, w) := Math_random w in
  let '(shape, w) := generateAsteroidShape w in
  let '(r7, w) := Math_random w in
  let asteroid :=
    mkAsteroid x y ((dx / dist) * speed) ((dy / dist) * speed)
      (#30 + r4 * #30) (r5 * Math_PI * #2) ((r6 - frac 5 10) * frac 5 100)
      shape (#20 + r7 * #20) in
  upd (fun s => set_asteroids (asteroids s ++ [asteroid]) s) w.

(** *** Explosions *)

(** The loop of [createExplosion], [n] iterations left. *)
Fixpoint explosionLoop (n : nat) (x y : A) (w : World A) : World A :=
  match n with
  | O => w
  | S n' =>
      let '(r0, w) := Math_random w in
      let angle := r0 * Math_PI * #2 in
      let '(r1, w) := Math_random w in
      let speed := #2 + r1 * #5 in
      let '(r2, w) := Math_random w in
      let hue := r2 * #60 + #10 in
      let '(r3, w) := Math_random w in
      let '(r4, w) := Math_random w in
      let p := mkParticle x y (Math_cos angle * speed) (Math_sin angle * speed)
                 (#3 + r3 * #5) #1 (frac 2 100 + r4 * frac 2 100) hue in
      explosionLoop n' x y (upd (fun s => set_particles (particles s ++ [p]) s) w)
  end.

(** [createExplosion(x, y, size)]: the count is a floor, and the loop
    [for (i = 0; i < particleCount; i++)] runs that many times (none when
    it is negative). *)
Definition createExplosion (x y size : A) (w : World A) : World A :=
  explosionLoop (Z.to_nat (Math_floor (particleCount * (size / #30)))) x y w.

(** *** Asteroids *)

(** The first three statements of the loop body of [updateAsteroids]. *)
Definition moveAsteroid (a : Asteroid A) : Asteroid A :=
  mkAsteroid (a_x a + a_vx a) (a_y a + a_vy a) (a_vx a) (a_vy a)
    (a_radius a) (rotation a + rotationSpeed a) (rotationSpeed a)
    (vertices a) (a_hue a).

(** The two nested tests on the cursor:
    [state.fingerPosition.detected] and
    [dist < asteroid.radius + CONFIG.cursorRadius]. *)
Definition hitsCursor (fp : FingerPosition A) (asteroid : Asteroid A) : bool :=
  if detected fp then
    let dx := a_x asteroid - fp_x fp in
    let dy := a_y asteroid - fp_y fp in
    let dist := Math_sqrt (dx * dx + dy * dy) in
    dist <? a_radius asteroid + cursorRadius
  else false.

(** The branch taken on a cursor hit, up to its [continue]. *)
Definition destroyAsteroid (i : nat) (asteroid : Asteroid A) (w : World A)
    : World A :=
  let w1 := createExplosion (a_x asteroid) (a_y asteroid) (a_radius asteroid) w in
  let w2 := upd (fun s => set_asteroids (delete i (asteroids s)) s) w1 in
  let '(now, w3) := Date_now w2 in
  let w4 :=
    upd (fun s =>
           set_combo (if now - lastDestroyTime s <? comboTimeout
                      then Math_min #10 (combo s + #1)
                      else #1) s) w3 in
  let w5 := upd (set_lastDestroyTime now) w4 in
  let points :=
    Math_round (#10 * combo (state w5) * (a_radius asteroid / #30)) in
  let w6 := upd (fun s => set_score (score s + points) s) w5 in
  record (EvDestroyed asteroid) (upd (set_intensity #10) w6).

(** The test [distToCenter < 50]. *)
Definition reachesCenter (centerX centerY : A) (asteroid : Asteroid A) : bool :=
  let distToCenter :=
    Math_sqrt (Math_pow2 (a_x asteroid - centerX)
               + Math_pow2 (a_y asteroid - centerY)) in
  distToCenter <? #50.

(** The branch taken when the asteroid reaches the centre. *)
Definition impactAsteroid (i : nat) (asteroid : Asteroid A) (w : World A)
    : World A :=
  let w1 := upd (fun s => set_asteroids (delete i (asteroids s)) s) w in
  let w2 := loseLife (record (EvImpact asteroid) w1) in
  upd (set_intensity #20) w2.

(** One iteration of the loop of [updateAsteroids], at index [i].
    [state.asteroids[i]] is an object: the three updates are made in
    place. *)
Definition updateAsteroidAt (centerX centerY : A) (i : nat) (w : World A)
    : option (World A) :=
  match asteroids (state w) !! i with
  | None => None
  | Some a =>
      let asteroid := moveAsteroid a in
      let w1 := upd (fun s => set_asteroids (<[i := asteroid]> (asteroids s)) s) w in
      if hitsCursor (fingerPosition (state w1)) asteroid
      then Some (destroyAsteroid i asteroid w1)
      else if reachesCenter centerX centerY asteroid
           then Some (impactAsteroid i asteroid w1)
           else Some w1
  end.

(** [for (let i = n - 1; i >= 0; i--)]. *)
Fixpoint updateAsteroidsFrom (centerX centerY : A) (n : nat) (w : World A)
    : option (World A) :=
  match n with
  | O => Some w
  | S i =>
      match updateAsteroidAt centerX centerY i w with
      | None => None
      | Some w' => updateAsteroidsFrom centerX centerY i w'
      end
  end.

(** [updateAsteroids(deltaTime)]. *)
Definition updateAsteroids (deltaTime : A) (w : World A) : option (World A) :=
  let centerX := canvasWidth w / #2 in
  let centerY := canvasHeight w / #2 in
  updateAsteroidsFrom centerX centerY (length (asteroids (state w))) w.

(** *** The frame *)

(** What [render()] does to the state and to the browser: with a positive
    shake intensity it draws two random numbers and damps the intensity;
    then [drawCenterZone] reads the clock once (for the pulse of the
    centre zone); the other drawing functions read the state only. *)
Definition render (w : World A) : World A :=
  let w1 :=
    if intensity (screenShake (state w)) >? #0 then
      let '(_, w1) := Math_random w in
      let '(_, w2) := Math_random w1 in
      upd (fun s => set_intensity (intensity (screenShake s) * frac 9 10) s) w2
    else w in
  snd (Date_now w1).

(** The combo timeout test at the end of [gameLoop]. *)
Definition checkComboTimeout (w : World A) : World A :=
  let '(now, w1) := Date_now w in
  if (now - lastDestroyTime (state w1) >? comboTimeout)
     && (combo (state w1) >? #1)
  then upd (set_combo #1) w1
  else w1.

(** [gameLoop(currentTime)]; the closing [requestAnimationFrame(gameLoop)]
    is the browser's part. *)
Definition gameLoop (currentTime : A) (w : World A) : option (World A) :=
  if negb (isPlaying (state w)) then Some w else
  let deltaTime := currentTime - lastFrameTime w in
  let w1 := set_lastFrameTime currentTime w in
  let w2 := upd (fun s => set_gameTime (gameTime s + deltaTime) s) w1 in
  let w3 :=
    if currentTime - lastSpawnTime (state w2) >? spawnInterval (gameTime (state w2))
    then upd (set_lastSpawnTime currentTime) (spawnAsteroid w2)
    else w2 in
  match updateAsteroids deltaTime w3 with
  | None => None
  | Some w4 =>
      match updateParticles w4 with
      | None => None
      | Some w5 => Some (render (checkComboTimeout w5))
      end
  end.

End Simulation.

(** ** Definitions used to state the properties *)

Section Auxiliary.
Context {A : Type} `{Number A}.
Local Open Scope num_scope.

(** What a pass of [updateParticles] computes, read off the loop body:
    every particle is stepped once and the dead ones are dropped. *)
Definition survivors (ps : list (Particle A)) : list (Particle A) :=
  List.filter (fun p => negb (isDead p)) (List.map stepParticle ps).

(** [n] passes of [updateParticles], one per frame. *)
Fixpoint particlePasses (n : nat) (w : World A) : option (World A) :=
  match n with
  | O => Some w
  | S k =>
      match updateParticles w with
      | None => None
      | Some w' => particlePasses k w'
      end
  end.

(** *** Sample inputs *)

(** A world around a given [state] object: an 800 by 600 canvas, nothing
    stored, random numbers all 0, and [clock] the readings of [Date.now()]. *)
Definition worldAround (clock : nat -> A) (s : State A) : World A :=
  mkWorld s #0 #800 #600 None true (fun _ => #0) 0 clock 0 [].

(** A particle as [createExplosion] makes them, with the least radius and
    the least decay. *)
Definition freshParticle : Particle A :=
  mkParticle #400 #300 #3 #(-4) #3 #1 (frac 2 100) #30.

Definition oneParticleWorld : World A :=
  worldAround (fun _ => #0)
    (set_particles [freshParticle] (set_isPlaying true (initialState None))).

(** The last life: a session with one life left, a score of 120 above the
    stored high score of 0, no cursor, and two asteroids that both come
    within 50 of the centre (400, 300) in the next step: the first from
    (451, 300) to (449, 300), the second from (400, 352) to (400, 349). *)
Definition inboundEast : Asteroid A :=
  mkAsteroid #451 #300 #(-2) #0 #30 #0 (frac 1 100) [] #25.

Definition inboundSouth : Asteroid A :=
  mkAsteroid #400 #352 #0 #(-3) #45 #1 (frac (-2) 100) [] #35.

Definition lastLifeWorld (incoming : list (Asteroid A)) : World A :=
  worldAround (fun _ => #1700000000000)
    (set_asteroids incoming
      (set_score #120
        (set_lives #1 (set_isPlaying true (initialState None))))).

(** The page as loaded, then [startGame]: a fresh session.  [clock] gives
    the readings of [Date.now()]. *)
Definition freshSession (clock : nat -> A) : World A :=
  startGame true #0 (worldAround clock (initialState None)).

(** Three readings of the clock, 500 ms and 3000 ms after the first. *)
Definition threeDestroysClock (k : nat) : A :=
  match k with
  | 0%nat => #1700000000000
  | 1%nat => #1700000000500
  | _ => #1700000003000
  end.

(** A session that has ended (no life left, combo 4, score 120), whose
    last destroy was at 1700000000000; the clock now reads
    1700000001500. *)
Definition endedSession : World A :=
  worldAround (fun _ => #1700000001500)
    (set_lastDestroyTime #1700000000000
      (set_combo #4
        (set_score #120
          (set_lives #0 (initialState None))))).

(** A hand of 21 landmarks, all at the same point. *)
Definition handAt (u v : A) : list (Landmark A) :=
  List.repeat (mkLandmark u v) 21.

(** A hand with the fingertip at (0.25, 0.5). *)
Definition sampleHand : list (Landmark A) := handAt (frac 1 4) (frac 1 2).

(** The largest double below 1, [1 - 2^-53]: the largest number
    [Math.random()] can return.  (In the exact arithmetic it is the real
    number of that value.) *)
Definition largestDraw : A := #9007199254740991 / #9007199254740992.

(** A fresh session on an 800 by 600 canvas in which every call of
    [Math.random()] returns [r]. *)
Definition sessionDrawing (r : A) : World A :=
  startGame true #0
    (mkWorld (initialState None) #0 #800 #600 None true (fun _ => r) 0
       (fun _ => #1700000000000) 0 []).

(** An asteroid of radius 30. *)
Definition smallAsteroid : Asteroid A :=
  mkAsteroid #100 #100 #1 #1 #30 #0 (frac 1 100) [] #25.

(** The coordinates a loop [for (let x = 0; x < n; x += 2)] visits. *)
Definition evenBelow (n : nat) : list nat :=
  List.map (fun k => (2 * k)%nat) (List.seq 0 ((n + 1) / 2)).

(** The pixels [trackSkinColor] samples, as [(y, x)], in the order of the
    loops. *)
Definition samplePoints (width height : nat) : list (nat * nat) :=
  List.flat_map (fun y => List.map (fun x => (y, x)) (evenBelow width))
    (evenBelow height).

(** The test of the inner loop at the pixel [(x, y)]. *)
Definition skinAt (width : nat) (data : nat -> A) (p : nat * nat) : bool :=
  let i := ((fst p * width + snd p) * 4)%nat in
  isSkinColor (data i) (data (i + 1)%nat) (data (i + 2)%nat).

(** The sampled pixels that pass the test. *)
Definition skinPoints (width height : nat) (data : nat -> A)
    : list (nat * nat) :=
  List.filter (skinAt width data) (samplePoints width height).

(** An image in which every pixel has the colour (200, 140, 120), and a
    black one. *)
Definition skinImage (i : nat) : A :=
  match (i mod 4)%nat with
  | 0%nat => #200
  | 1%nat => #140
  | 2%nat => #120
  | _ => #255
  end.

Definition blackImage (i : nat) : A :=
  match (i mod 4)%nat with
  | 3%nat => #255
  | _ => #0
  end.

End Auxiliary.

Section AuxiliarySimulation.
Context {A : Type} `{Number A} `{MathObj A}.
Local Open Scope num_scope.

(** Which branch the loop body of [updateAsteroids] takes for an asteroid
    that has just been moved: the event it records, if any. *)
Definition outcome (fp : FingerPosition A) (centerX centerY : A)
    (asteroid : Asteroid A) : option (Event A) :=
  if hitsCursor fp asteroid then Some (EvDestroyed asteroid)
  else if reachesCenter centerX centerY asteroid then Some (EvImpact asteroid)
  else None.

(** The asteroids of a list that are removed, in the order the backward
    loop meets them. *)
Definition removals (fp : FingerPosition A) (centerX centerY : A)
    (l : list (Asteroid A)) : list (Event A) :=
  List.flat_map
    (fun a => match outcome fp centerX centerY a with
              | Some e => [e]
              | None => []
              end)
    (List.rev l).

(** The asteroids of a list that stay. *)
Definition remaining (fp : FingerPosition A) (centerX centerY : A)
    (l : list (Asteroid A)) : list (Asteroid A) :=
  List.filter
    (fun a => match outcome fp centerX centerY a with
              | Some _ => false
              | None => true
              end)
    l.

(** [v] is one of the numbers [Math.random()] returns in [w]. *)
Definition isDraw (w : World A) (v : A) : Prop :=
  exists k : nat, v = randomSeq w k.

(** A polygon as [generateAsteroidShape] builds it in [w]: 8 plus
    [floor(r * 5)] vertices for a draw [r], the radial factor of each
    [0.7 + r' * 0.3] for a draw [r']. *)
Definition shapedIn (w : World A) (vs : list (Vertex A)) : Prop :=
  (exists r, isDraw w r /\ length vs = Z.to_nat (8 + Math_floor (r * #5)))
  /\ Forall (fun v => exists r', isDraw w r'
                       /\ v_radius v = frac 7 10 + r' * frac 3 10) vs.

(** An asteroid as [spawnAsteroid] builds it in [w], up to its position and
    initial rotation: the velocity is the unit vector along some [(dx, dy)]
    scaled by the speed. *)
Definition spawnedIn (w : World A) (a : Asteroid A) : Prop :=
  exists r3 r4 r6 r7 dx dy,
    isDraw w r3 /\ isDraw w r4 /\ isDraw w r6 /\ isDraw w r7
    /\ (let dist := Math_sqrt (dx * dx + dy * dy) in
        let speed := baseAsteroidSpeed * difficultyMultiplier (gameTime (state w))
                     * (frac 8 10 + r3 * frac 4 10) in
        a_vx a = (dx / dist) * speed /\ a_vy a = (dy / dist) * speed)
    /\ a_radius a = #30 + r4 * #30
    /\ rotationSpeed a = (r6 - frac 5 10) * frac 5 100
    /\ a_hue a = #20 + r7 * #20
    /\ shapedIn w (vertices a).

(** The spawn point the [switch] of [spawnAsteroid] gives for a side and
    a draw [r]: just outside one of the four edges of the canvas. *)
Definition edgePoint (side : Z) (r : A) (w : World A) : A * A :=
  match side with
  | 0%Z => (r * canvasWidth w, #(-50))
  | 1%Z => (canvasWidth w + #50, r * canvasHeight w)
  | 2%Z => (r * canvasWidth w, canvasHeight w + #50)
  | 3%Z => (#(-50), r * canvasHeight w)
  | _ => (undefined_num, undefined_num)
  end.

(** A particle as [createExplosion(x, y, size)] builds it in [w], from five
    draws. *)
Definition explodedIn (w : World A) (x y : A) (p : Particle A) : Prop :=
  exists r0 r1 r2 r3 r4,
    isDraw w r0 /\ isDraw w r1 /\ isDraw w r2 /\ isDraw w r3 /\ isDraw w r4
    /\ p = mkParticle x y
             (Math_cos (r0 * Math_PI * #2) * (#2 + r1 * #5))
             (Math_sin (r0 * Math_PI * #2) * (#2 + r1 * #5))
             (#3 + r3 * #5) #1 (frac 2 100 + r4 * frac 2 100)
             (r2 * #60 + #10).

(** The vertex [generateAsteroidShape] makes at index [j] of a polygon of
    [numVertices] vertices, from the draw [r]. *)
Definition vertexAt (numVertices : Z) (j : Z) (r : A) : Vertex A :=
  mkVertex ((#j / #numVertices) * Math_PI * #2) (frac 7 10 + r * frac 3 10).

(** The particle [createExplosion(x, y, size)] makes when every draw is
    0. *)
Definition zeroDrawParticle (x y : A) : Particle A :=
  mkParticle x y
    (Math_cos (#0 * Math_PI * #2) * (#2 + #0 * #5))
    (Math_sin (#0 * Math_PI * #2) * (#2 + #0 * #5))
    (#3 + #0 * #5) #1 (frac 2 100 + #0 * frac 2 100)
    (#0 * #60 + #10).

Definition isImpact (e : Event A) : bool :=
  match e with EvImpact _ => true | EvDestroyed _ => false end.

(** The lives after a list of removals: one less for every impact. *)
Definition livesAfter (l0 : A) (es : list (Event A)) : A :=
  List.fold_left (fun l e => if isImpact e then l - #1 else l) es l0.

(** What the browser does with the page: it calls [startGame] on a click,
    [gameLoop] on an animation frame, [onHandResults] when the tracker has
    a result. *)
Inductive Action :=
  | ActStart (webcamReady : bool) (perfNow : A)
  | ActFrame (currentTime : A)
  | ActHand (multiHandLandmarks : option (list (list (Landmark A)))).

(** One call.  An exception thrown in a callback leaves the state as it
    was (the modelled functions throw before they write). *)
Definition act (a : Action) (w : World A) : World A :=
  match a with
  | ActStart webcamReady perfNow => startGame webcamReady perfNow w
  | ActFrame currentTime =>
      match gameLoop currentTime w with Some w' => w' | None => w end
  | ActHand multiHandLandmarks =>
      match onHandResults multiHandLandmarks w with Some w' => w' | None => w end
  end.

Definition run (acts : list Action) (w : World A) : World A :=
  List.fold_left (fun w a => act a w) acts w.

(** What a page load reads back from [localStorage]:
    [parseInt(localStorage.getItem('asteroidHighScore')) || 0]. *)
Definition persisted (w : World A) : A :=
  match storedHighScore w with Some v => v | None => #0 end.

(** A session that ends with the score [s]: the game over at its end. *)
Definition gameOverWith (s : A) (w : World A) : World A :=
  gameOver (upd (set_score s) w).

End AuxiliarySimulation.

Arguments Action : clear implicits.

(** ** Definitions over the exact arithmetic *)

(** Unfolds the operations of [Number] at the instance [R_Number]. *)
Ltac rnum :=
  cbn [ofZ n_add n_sub n_mul n_div n_ltb n_leb R_Number] in *.

(** The high score is at least [h] and equal to what is stored. *)
Definition highScoreAbove (h : R) (w : World R) : Prop :=
  (h <= highScore (state w))%R /\ persisted w = highScore (state w).

(** A cursor detected at [(x, y)]. *)
Definition cursorAt (x y : R) : FingerPosition R := mkFinger x y true.

(** An asteroid of radius [r] at [(x, y)], after its move. *)
Definition asteroidAt (x y r : R) : Asteroid R :=
  mkAsteroid x y 0%R 0%R r 0%R 0%R [] 30%R.

(** The ranges of a particle in the store. *)
Definition particleInRange (p : Particle R) : Prop :=
  (0 < life p <= 1 /\ 1 / 2 <= p_radius p <= 8
   /\ 2 / 100 <= decay p <= 4 / 100)%R.

(** The ranges a session keeps: the random numbers are in [[0, 1)], the
    combo between 1 and 10, the score not negative, the radius of every
    asteroid between 30 and 60, and every particle in range. *)
Definition sessionRanges (w : World R) : Prop :=
  (forall k, 0 <= randomSeq w k < 1)%R
  /\ (1 <= combo (state w) <= 10)%R
  /\ (0 <= score (state w))%R
  /\ Forall (fun a => 30 <= a_radius a <= 60)%R (asteroids (state w))
  /\ Forall particleInRange (particles (state w)).

(** The session is stopped exactly when no life is left. *)
Definition stoppedWhenNoLife (w : World R) : Prop :=
  isPlaying (state w) = false <-> (lives (state w) <= 0)%R.

(** The sums of the [x] and of the [y] of a list of pixels [(y, x)]. *)
Definition sumXs (pts : list (nat * nat)) : R :=
  List.fold_right (fun p s => (INR (snd p) + s)%R) 0%R pts.

Definition sumYs (pts : list (nat * nat)) : R :=
  List.fold_right (fun p s => (INR (fst p) + s)%R) 0%R pts.

(** ** Laws that hold for every arithmetic *)

Section ParticleLaws.
Context {A : Type} `{Number A}.

Lemma survivors_app (l1 l2 : list (Particle A)) :
  survivors (l1 ++ l2) = survivors l1 ++ survivors l2.
Proof.
  unfold survivors. rewrite List.map_app. apply List.filter_app.
Qed.

Lemma survivors_single (p : Particle A) :
  survivors [p] = if isDead (stepParticle p) then [] else [stepParticle p].
Proof. unfold survivors. simpl. destruct (isDead (stepParticle p)); reflexivity. Qed.

(** The backward loop over a prefix [pre] of the array leaves the
    survivors of [pre] in place of it, and the rest untouched. *)
Lemma updateParticlesFrom_spec (pre suf : list (Particle A)) (w : World A) :
  particles (state w) = pre ++ suf ->
  updateParticlesFrom (length pre) w
  = Some (upd (set_particles (survivors pre ++ suf)) w).
Proof.
  revert suf w. induction pre as [|p pre IH] using rev_ind; intros suf w Hw.
  - simpl. destruct w as [s ? ? ? ? ? ? ? ? ? ?]. destruct s. simpl in *.
    subst. reflexivity.
  - rewrite length_app, Nat.add_comm. simpl.
    unfold updateParticleAt. rewrite Hw, <- app_assoc. simpl.
    rewrite list_lookup_middle by reflexivity.
    rewrite survivors_app, survivors_single.
    destruct (isDead (stepParticle p)) eqn:Hd.
    + rewrite IH with (suf := suf).
      * rewrite app_nil_r. reflexivity.
      * simpl. rewrite Hw, <- app_assoc. simpl.
        rewrite insert_app_r_alt by lia. rewrite Nat.sub_diag. simpl.
        apply delete_middle.
    + rewrite IH with (suf := stepParticle p :: suf).
      * rewrite <- app_assoc. reflexivity.
      * simpl. rewrite Hw, <- app_assoc. simpl.
        rewrite insert_app_r_alt by lia. rewrite Nat.sub_diag. reflexivity.
Qed.

Lemma updateParticles_spec (w : World A) :
  updateParticles w
  = Some (upd (fun s => set_particles (survivors (particles s)) s) w).
Proof.
  unfold updateParticles.
  rewrite (updateParticlesFrom_spec (particles (state w)) [] w)
    by (symmetry; apply app_nil_r).
  rewrite app_nil_r. reflexivity.
Qed.

Lemma survivors_nil : survivors (A := A) [] = [].
Proof. reflexivity. Qed.

(** [n] passes leave the [n]-th iterate of [survivors]. *)
Lemma particlePasses_spec (n : nat) (w : World A) :
  particlePasses n w
  = Some (upd (set_particles (Nat.iter n survivors (particles (state w)))) w).
Proof.
  revert w. induction n as [|n IH]; intros w.
  - cbn. destruct w as [s ? ? ? ? ? ? ? ? ? ?]. destruct s. reflexivity.
  - cbn [particlePasses]. rewrite updateParticles_spec, IH.
    rewrite Nat.iter_succ_r. reflexivity.
Qed.

Lemma iter_survivors_app (n : nat) (l1 l2 : list (Particle A)) :
  Nat.iter n survivors (l1 ++ l2)
  = Nat.iter n survivors l1 ++ Nat.iter n survivors l2.
Proof.
  induction n as [|n IH]; [reflexivity|].
  rewrite !Nat.iter_succ, IH. apply survivors_app.
Qed.

(** A particle alone: its iterates, as long as they are alive. *)
Lemma iter_survivors_alive (n : nat) (p : Particle A) :
  (forall k, (1 <= k <= n)%nat -> isDead (Nat.iter k stepParticle p) = false) ->
  Nat.iter n survivors [p] = [Nat.iter n stepParticle p].
Proof.
  induction n as [|n IH]; intros Halive; [reflexivity|].
  rewrite !Nat.iter_succ, IH by (intros k Hk; apply Halive; lia).
  rewrite survivors_single.
  rewrite <- (Nat.iter_succ n stepParticle p).
  rewrite (Halive (S n)) by lia. reflexivity.
Qed.

(** The fate of one particle in a pass does not depend on the others. *)
Lemma updateParticles_middle (w : World A) (l1 l2 : list (Particle A))
    (q : Particle A) :
  particles (state w) = l1 ++ q :: l2 ->
  updateParticles w
  = Some (upd (set_particles
                 (survivors l1
                  ++ (if isDead (stepParticle q) then [] else [stepParticle q])
                  ++ survivors l2)) w).
Proof.
  intros Hw. rewrite updateParticles_spec.
  cbn [upd]. unfold upd. rewrite Hw.
  change (q :: l2) with ([q] ++ l2).
  rewrite !survivors_app, survivors_single. reflexivity.
Qed.

End ParticleLaws.

Section SessionLaws.
Context {A : Type} `{Number A}.

(** The two ways through [gameOver] and through [loseLife]. *)
Lemma gameOver_new_high (w : World A) :
  n_ltb (highScore (state w)) (score (state w)) = true ->
  gameOver w
  = set_newHighScoreHidden false
      (set_storedHighScore (Some (score (state w)))
         (upd (fun s => set_highScore (score s) (set_isPlaying false s)) w)).
Proof. intros Hgt. unfold gameOver. cbn. rewrite Hgt. reflexivity. Qed.

Lemma gameOver_no_high (w : World A) :
  n_ltb (highScore (state w)) (score (state w)) = false ->
  gameOver w = set_newHighScoreHidden true (upd (set_isPlaying false) w).
Proof. intros Hle. unfold gameOver. cbn. rewrite Hle. reflexivity. Qed.

Lemma loseLife_last (w : World A) :
  n_leb (n_sub (lives (state w)) (ofZ 1)) (ofZ 0) = true ->
  loseLife w = gameOver (upd (fun s => set_lives (n_sub (lives s) (ofZ 1)) s) w).
Proof. intros Hle. unfold loseLife. cbn. rewrite Hle. reflexivity. Qed.

Lemma loseLife_more (w : World A) :
  n_leb (n_sub (lives (state w)) (ofZ 1)) (ofZ 0) = false ->
  loseLife w = upd (fun s => set_lives (n_sub (lives s) (ofZ 1)) s) w.
Proof. intros Hgt. unfold loseLife. cbn. rewrite Hgt. reflexivity. Qed.

End SessionLaws.

Section SpawnLaws.
Context {A : Type} `{Number A} `{MathObj A}.

Lemma shapeLoop_spec (n : nat) (i numVertices : Z) (vs : list (Vertex A))
    (w : World A) :
  exists new k,
    shapeLoop n i numVertices vs w = (vs ++ new, set_randomPos k w)
    /\ length new = n
    /\ Forall (fun v => exists r', isDraw w r'
                  /\ v_radius v = n_add (frac 7 10) (n_mul r' (frac 3 10))) new.
Proof.
  revert i vs w. induction n as [|n IH]; intros i vs w.
  - exists [], (randomPos w). cbn. rewrite app_nil_r.
    repeat split; [|constructor].
    destruct w; reflexivity.
  - cbn [shapeLoop Math_random].
    match goal with
    | |- context [shapeLoop n ?i' numVertices ?vs' ?w'] =>
        destruct (IH i' vs' w') as (new & k & -> & Hlen & Hall)
    end.
    eexists (_ :: new), k. rewrite <- app_assoc. cbn. split; [reflexivity|].
    split; [f_equal; exact Hlen|]. constructor.
    + eexists. split; [exists (randomPos w); reflexivity | reflexivity].
    + exact Hall.
Qed.

Lemma generateAsteroidShape_spec (w : World A) :
  exists k,
    snd (generateAsteroidShape w) = set_randomPos k w
    /\ shapedIn w (fst (generateAsteroidShape w)).
Proof.
  unfold generateAsteroidShape. cbn [Math_random].
  match goal with
  | |- context [shapeLoop ?n ?i ?nv ?vs ?w'] =>
      destruct (shapeLoop_spec n i nv vs w') as (new & k & -> & Hlen & Hall)
  end.
  exists k. cbn. split; [reflexivity|]. split.
  - eexists. split; [exists (randomPos w); reflexivity | exact Hlen].
  - exact Hall.
Qed.

Lemma spawnPoint_frame (side : Z) (w : World A) :
  exists k, snd (spawnPoint side w) = set_randomPos k w.
Proof.
  unfold spawnPoint.
  destruct side as [|[[p|p|]|[p|p|]|]|p]; cbn;
    first [ exists (S (randomPos w)); reflexivity
          | exists (randomPos w); destruct w; reflexivity ].
Qed.

Lemma spawnPoint_fst (side : Z) (w : World A) :
  fst (spawnPoint side w) = edgePoint side (randomSeq w (randomPos w)) w.
Proof.
  unfold spawnPoint, edgePoint.
  destruct side as [|[[p|p|]|[p|p|]|]|p]; reflexivity.
Qed.

Lemma edgePoint_set_randomPos (side : Z) (r : A) (k : nat) (w : World A) :
  edgePoint side r (set_randomPos k w) = edgePoint side r w.
Proof. reflexivity. Qed.

(** Small steps on worlds, used to keep the terms of the proofs below in
    shape. *)
Lemma set_randomPos_twice (k k' : nat) (w : World A) :
  set_randomPos k (set_randomPos k' w) = set_randomPos k w.
Proof. reflexivity. Qed.

Lemma upd_set_randomPos (f : State A -> State A) (k : nat) (w : World A) :
  upd f (set_randomPos k w) = set_randomPos k (upd f w).
Proof. reflexivity. Qed.

Lemma upd_push_asteroid (a : Asteroid A) (w : World A) :
  upd (fun s => set_asteroids (asteroids s ++ [a]) s) w
  = upd (set_asteroids (asteroids (state w) ++ [a])) w.
Proof. reflexivity. Qed.

Lemma generateAsteroidShape_eq (w : World A) :
  generateAsteroidShape w
  = (fst (generateAsteroidShape w),
     set_randomPos (randomPos (snd (generateAsteroidShape w))) w).
Proof.
  destruct (generateAsteroidShape_spec w) as (k & Hk & _).
  destruct (generateAsteroidShape w) as [shape w2]. cbn [fst snd] in *.
  subst w2. reflexivity.
Qed.

Lemma spawnPoint_eq (side : Z) (w : World A) :
  spawnPoint side w
  = (fst (fst (spawnPoint side w)), snd (fst (spawnPoint side w)),
     set_randomPos (randomPos (snd (spawnPoint side w))) w).
Proof.
  destruct (spawnPoint_frame side w) as (k & Hk).
  destruct (spawnPoint side w) as [[x y] w1]. cbn [fst snd] in *.
  subst w1. reflexivity.
Qed.

Lemma shapedIn_set_randomPos (k : nat) (w : World A) (vs : list (Vertex A)) :
  shapedIn (set_randomPos k w) vs -> shapedIn w vs.
Proof. intros Hs. exact Hs. Qed.

(** The anatomy of a spawn: [spawnAsteroid] appends one asteroid and
    draws random numbers, and touches nothing else; the asteroid lies on
    the edge point chosen by the first two draws; its velocity is the unit
    vector from there to the aim point (the centre, jittered by two draws)
    scaled by the speed; radius, rotation speed, hue and polygon come from
    further draws. *)
Lemma spawnAsteroid_anatomy (w : World A) :
  exists a k r0 rp r1 r2 r3 r4 r6 r7,
    spawnAsteroid w
    = set_randomPos k (upd (set_asteroids (asteroids (state w) ++ [a])) w)
    /\ (a_x a, a_y a) = edgePoint (Math_floor (n_mul r0 (ofZ 4))) rp w
    /\ (let dx := n_sub (n_add (n_div (canvasWidth w) (ofZ 2))
                          (n_mul (n_sub r1 (frac 5 10)) (ofZ 200))) (a_x a) in
        let dy := n_sub (n_add (n_div (canvasHeight w) (ofZ 2))
                          (n_mul (n_sub r2 (frac 5 10)) (ofZ 200))) (a_y a) in
        let dist := Math_sqrt (n_add (n_mul dx dx) (n_mul dy dy)) in
        let speed := n_mul (n_mul baseAsteroidSpeed
                              (difficultyMultiplier (gameTime (state w))))
                       (n_add (frac 8 10) (n_mul r3 (frac 4 10))) in
        a_vx a = n_mul (n_div dx dist) speed
        /\ a_vy a = n_mul (n_div dy dist) speed)
    /\ a_radius a = n_add (ofZ 30) (n_mul r4 (ofZ 30))
    /\ rotationSpeed a = n_mul (n_sub r6 (frac 5 10)) (frac 5 100)
    /\ a_hue a = n_add (ofZ 20) (n_mul r7 (ofZ 20))
    /\ shapedIn w (vertices a)
    /\ isDraw w r0 /\ isDraw w rp /\ isDraw w r1 /\ isDraw w r2
    /\ isDraw w r3 /\ isDraw w r4 /\ isDraw w r6 /\ isDraw w r7.
Proof.
  unfold spawnAsteroid. cbn [Math_random].
  rewrite spawnPoint_eq.
  cbn [Math_random set_randomPos randomSeq randomPos state
    lastFrameTime canvasWidth canvasHeight storedHighScore newHighScoreHidden
    dateSeq datePos history].
  rewrite generateAsteroidShape_eq.
  cbn [Math_random set_randomPos randomSeq randomPos state
    lastFrameTime canvasWidth canvasHeight storedHighScore newHighScoreHidden
    dateSeq datePos history gameTime].
  rewrite !set_randomPos_twice, upd_set_randomPos, upd_push_asteroid.
  do 10 eexists.
  split; [reflexivity|].
  cbn [a_x a_y a_vx a_vy a_radius rotationSpeed a_hue vertices].
  split.
  { rewrite <- surjective_pairing, spawnPoint_fst, edgePoint_set_randomPos.
    cbn [set_randomPos randomSeq randomPos]. reflexivity. }
  split; [split; reflexivity|].
  split; [reflexivity|]. split; [reflexivity|]. split; [reflexivity|].
  split.
  { match goal with
    | |- context [generateAsteroidShape ?w'] =>
        destruct (generateAsteroidShape_spec w') as (k1 & _ & Hshape)
    end.
    apply shapedIn_set_randomPos in Hshape. exact Hshape. }
  repeat split; eexists; reflexivity.
Qed.

(** [spawnAsteroid] appends one asteroid, built as [spawnedIn] says, and
    draws random numbers; it touches nothing else. *)
Lemma spawnAsteroid_spec (w : World A) :
  exists a k,
    spawnAsteroid w
    = set_randomPos k (upd (set_asteroids (asteroids (state w) ++ [a])) w)
    /\ spawnedIn w a.
Proof.
  destruct (spawnAsteroid_anatomy w)
    as (a & k & r0 & rp & r1 & r2 & r3 & r4 & r6 & r7 & Hw & _ & Hv & Hr & Hrs
        & Hh & Hshape & _ & _ & _ & _ & H3 & H4 & H6 & H7).
  exists a, k. split; [exact Hw|].
  exists r3, r4, r6, r7. eexists _, _.
  split; [exact H3|]. split; [exact H4|]. split; [exact H6|].
  split; [exact H7|]. split; [exact Hv|].
  split; [exact Hr|]. split; [exact Hrs|]. split; [exact Hh | exact Hshape].
Qed.

End SpawnLaws.

Section AsteroidLaws.
Context {A : Type} `{Number A} `{MathObj A}.

(** [createExplosion] appends particles and draws random numbers; it
    touches nothing else. *)
Lemma explosionLoop_frame (n : nat) (x y : A) (w : World A) :
  exists ps k,
    explosionLoop n x y w
    = set_randomPos k (upd (set_particles (particles (state w) ++ ps)) w).
Proof.
  revert w. induction n as [|n IH]; intros w.
  - exists [], (randomPos w). simpl. rewrite app_nil_r.
    destruct w as [s ? ? ? ? ? ? ? ? ? ?]. destruct s. reflexivity.
  - cbn [explosionLoop Math_random].
    match goal with
    | |- context [explosionLoop n x y ?v] => destruct (IH v) as (ps & k & ->)
    end.
    eexists (_ :: ps), k. cbn. rewrite <- app_assoc. reflexivity.
Qed.

Lemma createExplosion_frame (x y size : A) (w : World A) :
  exists ps k,
    createExplosion x y size w
    = set_randomPos k (upd (set_particles (particles (state w) ++ ps)) w).
Proof. apply explosionLoop_frame. Qed.

Lemma isDraw_frame (f : State A -> State A) (k : nat) (w : World A) (r : A) :
  isDraw (set_randomPos k (upd f w)) r -> isDraw w r.
Proof. intros Hd. exact Hd. Qed.

Lemma explodedIn_frame (f : State A -> State A) (k : nat) (w : World A)
    (x y : A) (p : Particle A) :
  explodedIn (set_randomPos k (upd f w)) x y p -> explodedIn w x y p.
Proof. intros He. exact He. Qed.

Lemma upd_push_particle (p : Particle A) (w : World A) :
  upd (fun s => set_particles (particles s ++ [p]) s) w
  = upd (set_particles (particles (state w) ++ [p])) w.
Proof. reflexivity. Qed.

Lemma set_randomPos_once (k k' : nat) (w : World A) :
  set_randomPos k (set_randomPos k' w) = set_randomPos k w.
Proof. reflexivity. Qed.

Lemma upd_after_set_randomPos (f : State A -> State A) (k : nat) (w : World A) :
  upd f (set_randomPos k w) = set_randomPos k (upd f w).
Proof. reflexivity. Qed.

Lemma upd_particles_twice (l l' : list (Particle A)) (k k' : nat) (w : World A) :
  set_randomPos k (upd (set_particles l)
                     (set_randomPos k' (upd (set_particles l') w)))
  = set_randomPos k (upd (set_particles l) w).
Proof. reflexivity. Qed.

(** The particles [createExplosion] appends: as many as the loop has
    iterations, each built from five draws. *)
Lemma explosionLoop_particles (n : nat) (x y : A) (w : World A) :
  exists ps k,
    explosionLoop n x y w
    = set_randomPos k (upd (set_particles (particles (state w) ++ ps)) w)
    /\ length ps = n
    /\ Forall (explodedIn w x y) ps.
Proof.
  revert w. induction n as [|n IH]; intros w.
  - exists [], (randomPos w). rewrite app_nil_r.
    split; [|split; [reflexivity | constructor]].
    destruct w as [s ? ? ? ? ? ? ? ? ? ?]. destruct s. reflexivity.
  - cbn [explosionLoop Math_random].
    cbn [Math_random set_randomPos randomSeq randomPos state
      lastFrameTime canvasWidth canvasHeight storedHighScore newHighScoreHidden
      dateSeq datePos history].
    rewrite !set_randomPos_once, upd_after_set_randomPos, upd_push_particle.
    match goal with
    | |- context [explosionLoop n x y ?v] =>
        destruct (IH v) as (ps & k & -> & Hlen & Hall)
    end.
    cbn [state upd set_randomPos set_particles particles].
    eexists (_ :: ps), k.
    split; [|split].
    + rewrite upd_particles_twice, <- app_assoc. reflexivity.
    + cbn [length]. rewrite Hlen. reflexivity.
    + constructor.
      * do 5 eexists.
        split; [eexists; reflexivity|]. split; [eexists; reflexivity|].
        split; [eexists; reflexivity|]. split; [eexists; reflexivity|].
        split; [eexists; reflexivity|]. reflexivity.
      * eapply List.Forall_impl; [|exact Hall].
        intros p Hp. eapply explodedIn_frame. exact Hp.
Qed.

Lemma createExplosion_particles (x y size : A) (w : World A) :
  exists ps,
    particles (state (createExplosion x y size w)) = particles (state w) ++ ps
    /\ length ps = Z.to_nat (Math_floor (n_mul particleCount (n_div size (ofZ 30))))
    /\ Forall (explodedIn w x y) ps.
Proof.
  unfold createExplosion.
  match goal with
  | |- context [explosionLoop ?n x y w] =>
      destruct (explosionLoop_particles n x y w) as (ps & k & -> & Hlen & Hall)
  end.
  exists ps. split; [reflexivity|]. split; assumption.
Qed.

(** What the cursor-hit branch leaves of the fields the loop depends
    on. *)
Lemma destroyAsteroid_frame (i : nat) (a : Asteroid A) (w : World A) :
  asteroids (state (destroyAsteroid i a w)) = delete i (asteroids (state w))
  /\ history (destroyAsteroid i a w) = history w ++ [EvDestroyed a]
  /\ fingerPosition (state (destroyAsteroid i a w)) = fingerPosition (state w)
  /\ lives (state (destroyAsteroid i a w)) = lives (state w)
  /\ isPlaying (state (destroyAsteroid i a w)) = isPlaying (state w).
Proof.
  unfold destroyAsteroid.
  destruct (createExplosion_frame (a_x a) (a_y a) (a_radius a) w)
    as (ps & k & ->).
  cbn. repeat split; reflexivity.
Qed.

(** What the cursor-hit branch does to the combo, the score and the
    clock. *)
Lemma destroyAsteroid_scoring (i : nat) (a : Asteroid A) (w : World A) :
  let now := dateSeq w (datePos w) in
  let combo' :=
    if n_ltb (n_sub now (lastDestroyTime (state w))) comboTimeout
    then Math_min (ofZ 10) (n_add (combo (state w)) (ofZ 1))
    else ofZ 1 in
  combo (state (destroyAsteroid i a w)) = combo'
  /\ lastDestroyTime (state (destroyAsteroid i a w)) = now
  /\ score (state (destroyAsteroid i a w))
     = n_add (score (state w))
         (Math_round (n_mul (n_mul (ofZ 10) combo') (n_div (a_radius a) (ofZ 30))))
  /\ dateSeq (destroyAsteroid i a w) = dateSeq w
  /\ datePos (destroyAsteroid i a w) = S (datePos w).
Proof.
  unfold destroyAsteroid.
  destruct (createExplosion_frame (a_x a) (a_y a) (a_radius a) w)
    as (ps & k & ->).
  cbn. repeat split; reflexivity.
Qed.

Lemma gameOver_frame (w : World A) :
  asteroids (state (gameOver w)) = asteroids (state w)
  /\ history (gameOver w) = history w
  /\ fingerPosition (state (gameOver w)) = fingerPosition (state w)
  /\ lives (state (gameOver w)) = lives (state w)
  /\ isPlaying (state (gameOver w)) = false.
Proof.
  unfold gameOver. cbn.
  destruct (n_ltb (highScore (state w)) (score (state w)));
    cbn; repeat split; reflexivity.
Qed.

Lemma loseLife_frame (w : World A) :
  asteroids (state (loseLife w)) = asteroids (state w)
  /\ history (loseLife w) = history w
  /\ fingerPosition (state (loseLife w)) = fingerPosition (state w)
  /\ lives (state (loseLife w)) = n_sub (lives (state w)) (ofZ 1).
Proof.
  unfold loseLife. cbn.
  destruct (n_leb (n_sub (lives (state w)) (ofZ 1)) (ofZ 0)).
  - match goal with |- context [gameOver ?v] =>
      destruct (gameOver_frame v) as (-> & -> & -> & -> & _) end.
    cbn. repeat split; reflexivity.
  - cbn. repeat split; reflexivity.
Qed.

(** What the centre branch leaves of them: the life is taken whatever
    [isPlaying] says. *)
Lemma impactAsteroid_frame (i : nat) (a : Asteroid A) (w : World A) :
  asteroids (state (impactAsteroid i a w)) = delete i (asteroids (state w))
  /\ history (impactAsteroid i a w) = history w ++ [EvImpact a]
  /\ fingerPosition (state (impactAsteroid i a w)) = fingerPosition (state w)
  /\ lives (state (impactAsteroid i a w)) = n_sub (lives (state w)) (ofZ 1).
Proof.
  unfold impactAsteroid. cbn [upd state set_intensity asteroids history
    fingerPosition lives].
  match goal with |- context [loseLife ?v] =>
    destruct (loseLife_frame v) as (-> & -> & -> & ->) end.
  cbn. repeat split; reflexivity.
Qed.

(** The three ways through the loop body, one lemma each. *)
Lemma updateAsteroidAt_destroy (cx cy : A) (i : nat) (w : World A) (a : Asteroid A) :
  asteroids (state w) !! i = Some a ->
  hitsCursor (fingerPosition (state w)) (moveAsteroid a) = true ->
  updateAsteroidAt cx cy i w
  = Some (destroyAsteroid i (moveAsteroid a)
            (upd (fun s => set_asteroids (<[i := moveAsteroid a]> (asteroids s)) s) w)).
Proof.
  intros Hi Hhit. unfold updateAsteroidAt. rewrite Hi.
  cbn [upd state set_asteroids fingerPosition]. rewrite Hhit. reflexivity.
Qed.

Lemma updateAsteroidAt_impact (cx cy : A) (i : nat) (w : World A) (a : Asteroid A) :
  asteroids (state w) !! i = Some a ->
  hitsCursor (fingerPosition (state w)) (moveAsteroid a) = false ->
  reachesCenter cx cy (moveAsteroid a) = true ->
  updateAsteroidAt cx cy i w
  = Some (impactAsteroid i (moveAsteroid a)
            (upd (fun s => set_asteroids (<[i := moveAsteroid a]> (asteroids s)) s) w)).
Proof.
  intros Hi Hhit Hc. unfold updateAsteroidAt. rewrite Hi.
  cbn [upd state set_asteroids fingerPosition]. rewrite Hhit, Hc. reflexivity.
Qed.

Lemma updateAsteroidAt_keep (cx cy : A) (i : nat) (w : World A) (a : Asteroid A) :
  asteroids (state w) !! i = Some a ->
  hitsCursor (fingerPosition (state w)) (moveAsteroid a) = false ->
  reachesCenter cx cy (moveAsteroid a) = false ->
  updateAsteroidAt cx cy i w
  = Some (upd (fun s => set_asteroids (<[i := moveAsteroid a]> (asteroids s)) s) w).
Proof.
  intros Hi Hhit Hc. unfold updateAsteroidAt. rewrite Hi.
  cbn [upd state set_asteroids fingerPosition]. rewrite Hhit, Hc. reflexivity.
Qed.

(** A property of the world that the three steps of the loop body keep is
    kept by the loop. *)
Lemma updateAsteroidsFrom_preserves (I : World A -> Prop) (cx cy : A) :
  (forall i a w, I w ->
     I (upd (fun s => set_asteroids (<[i := a]> (asteroids s)) s) w)) ->
  (forall i a w, I w -> I (destroyAsteroid i a w)) ->
  (forall i a w, I w -> I (impactAsteroid i a w)) ->
  forall n w w', I w -> updateAsteroidsFrom cx cy n w = Some w' -> I w'.
Proof.
  intros Hset Hdes Himp. induction n as [|n IH]; intros w w' Hw Hrun.
  - cbn in Hrun. injection Hrun as <-. exact Hw.
  - cbn [updateAsteroidsFrom] in Hrun. unfold updateAsteroidAt in Hrun.
    destruct (asteroids (state w) !! n) as [a|]; [|discriminate].
    destruct (hitsCursor _ _).
    + eapply IH; [|exact Hrun]. apply Hdes, Hset, Hw.
    + destruct (reachesCenter _ _ _).
      * eapply IH; [|exact Hrun]. apply Himp, Hset, Hw.
      * eapply IH; [|exact Hrun]. apply Hset, Hw.
Qed.




Lemma destroyAsteroid_highScore (i : nat) (a : Asteroid A) (w : World A) :
  highScore (state (destroyAsteroid i a w)) = highScore (state w)
  /\ storedHighScore (destroyAsteroid i a w) = storedHighScore w.
Proof.
  unfold destroyAsteroid.
  destruct (createExplosion_frame (a_x a) (a_y a) (a_radius a) w)
    as (ps & k & ->).
  cbn. split; reflexivity.
Qed.

Lemma removals_app (fp : FingerPosition A) (cx cy : A) (l1 l2 : list (Asteroid A)) :
  removals fp cx cy (l1 ++ l2) = removals fp cx cy l2 ++ removals fp cx cy l1.
Proof. unfold removals. rewrite List.rev_app_distr. apply List.flat_map_app. Qed.

Lemma remaining_app (fp : FingerPosition A) (cx cy : A) (l1 l2 : list (Asteroid A)) :
  remaining fp cx cy (l1 ++ l2) = remaining fp cx cy l1 ++ remaining fp cx cy l2.
Proof. apply List.filter_app. Qed.

Lemma removals_single (fp : FingerPosition A) (cx cy : A) (a : Asteroid A) :
  removals fp cx cy [a]
  = match outcome fp cx cy a with Some e => [e] | None => [] end.
Proof. unfold removals. cbn. apply app_nil_r. Qed.

Lemma remaining_single (fp : FingerPosition A) (cx cy : A) (a : Asteroid A) :
  remaining fp cx cy [a]
  = match outcome fp cx cy a with Some _ => [] | None => [a] end.
Proof. unfold remaining. cbn. destruct (outcome fp cx cy a); reflexivity. Qed.

Lemma livesAfter_app (l0 : A) (es1 es2 : list (Event A)) :
  livesAfter l0 (es1 ++ es2) = livesAfter (livesAfter l0 es1) es2.
Proof. apply List.fold_left_app. Qed.

(** The backward loop over a prefix [pre] of the array: it never fails;
    every asteroid of [pre] is moved once; the removed ones are recorded,
    last index first; the others stay in their order; the cursor is not
    touched; and every impact takes a life. *)
Lemma updateAsteroidsFrom_spec (cx cy : A) (pre suf : list (Asteroid A))
    (w : World A) :
  asteroids (state w) = pre ++ suf ->
  exists w',
    updateAsteroidsFrom cx cy (length pre) w = Some w'
    /\ asteroids (state w')
       = remaining (fingerPosition (state w)) cx cy (List.map moveAsteroid pre) ++ suf
    /\ history w'
       = history w
         ++ removals (fingerPosition (state w)) cx cy (List.map moveAsteroid pre)
    /\ fingerPosition (state w') = fingerPosition (state w)
    /\ lives (state w')
       = livesAfter (lives (state w))
           (removals (fingerPosition (state w)) cx cy (List.map moveAsteroid pre)).
Proof.
  revert suf w. induction pre as [|a pre IH] using rev_ind; intros suf w Hw.
  - exists w. cbn. rewrite app_nil_r. repeat split; try reflexivity. exact Hw.
  - rewrite length_app, Nat.add_comm. cbn [length Nat.add updateAsteroidsFrom].
    unfold updateAsteroidAt. rewrite Hw, <- app_assoc. cbn [app].
    rewrite list_lookup_middle by reflexivity.
    rewrite List.map_app, removals_app, remaining_app. cbn [List.map].
    set (a' := moveAsteroid a).
    set (w1 := upd (fun s => set_asteroids (<[length pre:=a']> (asteroids s)) s) w).
    assert (Hw1 : asteroids (state w1) = pre ++ a' :: suf).
    { subst w1. cbn. rewrite Hw, <- app_assoc. cbn [app].
      rewrite insert_app_r_alt by lia. rewrite Nat.sub_diag. reflexivity. }
    assert (Hfp1 : fingerPosition (state w1) = fingerPosition (state w)) by reflexivity.
    assert (Hh1 : history w1 = history w) by reflexivity.
    assert (Hl1 : lives (state w1) = lives (state w)) by reflexivity.
    rewrite removals_single, remaining_single, livesAfter_app.
    unfold outcome. rewrite Hfp1.
    destruct (hitsCursor (fingerPosition (state w)) a') eqn:Hhit.
    + destruct (destroyAsteroid_frame (length pre) a' w1) as (Ha & Hh & Hf & Hl & _).
      destruct (IH suf (destroyAsteroid (length pre) a' w1)) as (w' & Hrun & Has & Hhs & Hfs & Hls).
      { rewrite Ha, Hw1. apply delete_middle. }
      exists w'. rewrite Hrun, Has, Hhs, Hfs, Hls, Hf, Hh, Hl, Hfp1, Hh1, Hl1.
      rewrite app_nil_r, <- app_assoc.
      repeat split; reflexivity.
    + destruct (reachesCenter cx cy a') eqn:Hc.
      * destruct (impactAsteroid_frame (length pre) a' w1) as (Ha & Hh & Hf & Hl).
        destruct (IH suf (impactAsteroid (length pre) a' w1)) as (w' & Hrun & Has & Hhs & Hfs & Hls).
        { rewrite Ha, Hw1. apply delete_middle. }
        exists w'. rewrite Hrun, Has, Hhs, Hfs, Hls, Hf, Hh, Hl, Hfp1, Hh1, Hl1.
        rewrite app_nil_r, <- app_assoc.
        repeat split; reflexivity.
      * destruct (IH (a' :: suf) w1 Hw1) as (w' & Hrun & Has & Hhs & Hfs & Hls).
        exists w'. rewrite Hrun, Has, Hhs, Hfs, Hls, Hfp1, Hh1, Hl1.
        rewrite <- app_assoc.
        repeat split; reflexivity.
Qed.

Lemma updateAsteroids_spec (deltaTime : A) (w : World A) :
  let fp := fingerPosition (state w) in
  let cx := n_div (canvasWidth w) (ofZ 2) in
  let cy := n_div (canvasHeight w) (ofZ 2) in
  let moved := List.map moveAsteroid (asteroids (state w)) in
  exists w',
    updateAsteroids deltaTime w = Some w'
    /\ asteroids (state w') = remaining fp cx cy moved
    /\ history w' = history w ++ removals fp cx cy moved
    /\ fingerPosition (state w') = fp
    /\ lives (state w') = livesAfter (lives (state w)) (removals fp cx cy moved).
Proof.
  intros fp cx cy moved. unfold updateAsteroids.
  destruct (updateAsteroidsFrom_spec cx cy (asteroids (state w)) [] w)
    as (w' & Hrun & Has & Hh & Hf & Hl); [symmetry; apply app_nil_r|].
  exists w'. rewrite app_nil_r in Has. repeat split; assumption.
Qed.

Lemma In_removals (fp : FingerPosition A) (cx cy : A) (l : list (Asteroid A))
    (e : Event A) :
  In e (removals fp cx cy l) <-> exists a, In a l /\ outcome fp cx cy a = Some e.
Proof.
  unfold removals. rewrite List.in_flat_map. split.
  - intros (a & Hin & He). exists a. rewrite <- List.in_rev in Hin.
    split; [exact Hin|]. destruct (outcome fp cx cy a) as [e'|]; cbn in He.
    + destruct He as [->|[]]. reflexivity.
    + destruct He.
  - intros (a & Hin & He). exists a. rewrite <- List.in_rev.
    split; [exact Hin|]. rewrite He. left. reflexivity.
Qed.

Lemma In_removals_destroyed (fp : FingerPosition A) (cx cy : A)
    (l : list (Asteroid A)) (a : Asteroid A) :
  In (EvDestroyed a) (removals fp cx cy l) <-> In a l /\ hitsCursor fp a = true.
Proof.
  rewrite In_removals. unfold outcome. split.
  - intros (b & Hin & He). destruct (hitsCursor fp b) eqn:Hb.
    + injection He as ->. split; assumption.
    + destruct (reachesCenter cx cy b); discriminate.
  - intros [Hin Hhit]. exists a. rewrite Hhit. split; [exact Hin | reflexivity].
Qed.

Lemma In_removals_impact (fp : FingerPosition A) (cx cy : A)
    (l : list (Asteroid A)) (a : Asteroid A) :
  In (EvImpact a) (removals fp cx cy l)
  <-> In a l /\ hitsCursor fp a = false /\ reachesCenter cx cy a = true.
Proof.
  rewrite In_removals. unfold outcome. split.
  - intros (b & Hin & He). destruct (hitsCursor fp b) eqn:Hb; [discriminate|].
    destruct (reachesCenter cx cy b) eqn:Hc; [|discriminate].
    injection He as ->. repeat split; assumption.
  - intros (Hin & Hhit & Hc). exists a. rewrite Hhit, Hc.
    split; [exact Hin | reflexivity].
Qed.

Lemma In_remaining (fp : FingerPosition A) (cx cy : A)
    (l : list (Asteroid A)) (a : Asteroid A) :
  In a (remaining fp cx cy l)
  <-> In a l /\ hitsCursor fp a = false /\ reachesCenter cx cy a = false.
Proof.
  unfold remaining. rewrite List.filter_In. unfold outcome.
  destruct (hitsCursor fp a); [|destruct (reachesCenter cx cy a)];
    split; intros H1; repeat split; try tauto; try (destruct H1 as (_ & ? & ?); discriminate);
    destruct H1; discriminate.
Qed.

End AsteroidLaws.


(** ** The cursor and its trail *)

Section CursorLaws.
Context {A : Type} `{Number A}.

(** What a tracker result with a hand does. *)
Lemma onHandResults_hand (w : World A) (landmarks : list (Landmark A))
    (others : list (list (Landmark A))) (indexTip : Landmark A) :
  (21 <= length landmarks)%nat ->
  landmarks !! 8%nat = Some indexTip ->
  let gameX := n_mul (n_sub (ofZ 1) (lm_x indexTip)) (canvasWidth w) in
  let gameY := n_mul (lm_y indexTip) (canvasHeight w) in
  let fp := fingerPosition (state w) in
  let fp' :=
    if detected fp
    then mkFinger (lerp (fp_x fp) gameX fingerSmoothing)
                  (lerp (fp_y fp) gameY fingerSmoothing) true
    else mkFinger gameX gameY true in
  let pushed := positionHistory (state w) ++ [mkPoint (fp_x fp') (fp_y fp')] in
  onHandResults (Some (landmarks :: others)) w
  = Some (upd (fun s => set_positionHistory
                          (if (trailLength <? length pushed)%nat
                           then drop 1 pushed else pushed)
                          (set_fingerPosition fp' s)) w).
Proof.
  intros Hlen H8. unfold onHandResults.
  assert (Hl : (length landmarks <? 21)%nat = false) by (apply Nat.ltb_ge; exact Hlen).
  rewrite Hl, H8. reflexivity.
Qed.

Lemma landmark_8 (landmarks : list (Landmark A)) :
  (21 <= length landmarks)%nat -> exists indexTip, landmarks !! 8%nat = Some indexTip.
Proof.
  intros Hlen. destruct (landmarks !! 8%nat) as [t|] eqn:E; [exists t; reflexivity|].
  apply lookup_ge_None in E. lia.
Qed.

Lemma trail_cases (old : list (Point A)) (pt : Point A) :
  let new := if (trailLength <? length (old ++ [pt]))%nat
             then drop 1 (old ++ [pt]) else old ++ [pt] in
  ((length old < 15)%nat -> new = old ++ [pt])
  /\ ((15 <= length old)%nat ->
        new = drop 1 old ++ [pt] /\ length new = length old)
  /\ ((length old <= 15)%nat -> (length new <= 15)%nat).
Proof.
  cbv zeta. unfold trailLength. rewrite length_app. cbn [length].
  destruct (15 <? length old + 1)%nat eqn:Hc.
  - apply Nat.ltb_lt in Hc. split; [intros; lia|].
    assert (Hdrop : drop 1 (old ++ [pt]) = drop 1 old ++ [pt]).
    { destruct old as [|q old']; [cbn in Hc; lia | reflexivity]. }
    rewrite Hdrop. split.
    + intros _. split; [reflexivity|].
      rewrite length_app, length_drop. cbn [length]. lia.
    + intros Hle. rewrite length_app, length_drop. cbn [length]. lia.
  - apply Nat.ltb_ge in Hc. split; [intros _; reflexivity|].
    split; [intros; lia|]. intros _. rewrite length_app. cbn [length]. lia.
Qed.

(** X1. The trail is a queue of at most 15 points: a tracker result with
    a hand (of the tracker's 21 landmarks) appends the new cursor position;
    when the trail already holds 15 points or more, the oldest point is
    dropped, once, so that the length stays as it was; a trail of at most 15
    points stays one. *)
Theorem onHandResults_trail (w : World A) (landmarks : list (Landmark A))
    (others : list (list (Landmark A))) :
  (21 <= length landmarks)%nat ->
  exists w',
    onHandResults (Some (landmarks :: others)) w = Some w'
    /\ (let old := positionHistory (state w) in
        let pt := mkPoint (fp_x (fingerPosition (state w')))
                          (fp_y (fingerPosition (state w'))) in
        ((length old < 15)%nat -> positionHistory (state w') = old ++ [pt])
        /\ ((15 <= length old)%nat ->
              positionHistory (state w') = drop 1 old ++ [pt]
              /\ length (positionHistory (state w')) = length old)
        /\ ((length old <= 15)%nat ->
              (length (positionHistory (state w')) <= 15)%nat)).
Proof.
  intros Hlen. destruct (landmark_8 landmarks Hlen) as (tip & H8).
  rewrite (onHandResults_hand w landmarks others tip Hlen H8).
  eexists. split; [reflexivity|].
  cbn [upd state set_positionHistory set_fingerPosition fingerPosition
         positionHistory].
  apply trail_cases.
Qed.

End CursorLaws.

Lemma onHandResults_trail_witness :
  (21 <= length (sampleHand (A := R)))%nat
  /\ exists w',
       onHandResults (Some [sampleHand])
         (freshSession (A := R) threeDestroysClock) = Some w'
       /\ positionHistory (state w')
          = [mkPoint (fp_x (fingerPosition (state w')))
                     (fp_y (fingerPosition (state w')))].
Proof.
  assert (Hlen : (21 <= length (sampleHand (A := R)))%nat) by (cbn; lia).
  split; [exact Hlen|].
  destruct (onHandResults_trail (freshSession (A := R) threeDestroysClock)
              sampleHand [] Hlen) as (w' & Hrun & Hshort & _).
  exists w'. split; [exact Hrun|]. apply Hshort. cbn. lia.
Defined.

(** ** Invariants of the frame *)

Section InvariantLaws.
Context {A : Type} `{Number A} `{MathObj A}.

(** As [updateAsteroidsFrom_preserves], with what the loop body knows at
    each step: the asteroid it has read, and that the moved asteroid is the
    one in the array when a branch is taken. *)
Lemma updateAsteroidsFrom_invariant (I : World A -> Prop) (cx cy : A) :
  (forall i a w, I w -> asteroids (state w) !! i = Some a ->
     I (upd (fun s => set_asteroids (<[i := moveAsteroid a]> (asteroids s)) s) w)) ->
  (forall i a w, I w -> asteroids (state w) !! i = Some a ->
     I (destroyAsteroid i a w)) ->
  (forall i a w, I w -> asteroids (state w) !! i = Some a ->
     I (impactAsteroid i a w)) ->
  forall n w w', I w -> updateAsteroidsFrom cx cy n w = Some w' -> I w'.
Proof.
  intros Hset Hdes Himp. induction n as [|n IH]; intros w w' Hw Hrun.
  - cbn in Hrun. injection Hrun as <-. exact Hw.
  - cbn [updateAsteroidsFrom] in Hrun. unfold updateAsteroidAt in Hrun.
    destruct (asteroids (state w) !! n) as [a|] eqn:Hn; [|discriminate].
    assert (Hat : asteroids
                    (state (upd (fun s => set_asteroids
                                   (<[n := moveAsteroid a]> (asteroids s)) s) w))
                  !! n = Some (moveAsteroid a)).
    { cbn [upd state set_asteroids asteroids].
      apply list_lookup_insert_eq. eapply lookup_lt_Some. exact Hn. }
    destruct (hitsCursor _ _).
    + eapply IH; [|exact Hrun]. apply Hdes; [apply Hset; assumption | exact Hat].
    + destruct (reachesCenter _ _ _).
      * eapply IH; [|exact Hrun]. apply Himp; [apply Hset; assumption | exact Hat].
      * eapply IH; [|exact Hrun]. apply Hset; assumption.
Qed.

(** A property kept by each step of a frame is kept by the frame. *)
Lemma gameLoop_invariant (I : World A -> Prop) :
  (forall t w, I w -> I (set_lastFrameTime t w)) ->
  (forall t w, I w -> I (upd (set_gameTime t) w)) ->
  (forall w, I w -> I (spawnAsteroid w)) ->
  (forall t w, I w -> I (upd (set_lastSpawnTime t) w)) ->
  (forall i a w, I w -> asteroids (state w) !! i = Some a ->
     I (upd (fun s => set_asteroids (<[i := moveAsteroid a]> (asteroids s)) s) w)) ->
  (forall i a w, I w -> asteroids (state w) !! i = Some a ->
     I (destroyAsteroid i a w)) ->
  (forall i a w, I w -> asteroids (state w) !! i = Some a ->
     I (impactAsteroid i a w)) ->
  (forall w, I w -> I (upd (fun s => set_particles (survivors (particles s)) s) w)) ->
  (forall w, I w -> I (checkComboTimeout w)) ->
  (forall w, I w -> I (render w)) ->
  forall currentTime w w', I w -> gameLoop currentTime w = Some w' -> I w'.
Proof.
  intros Hft Hgt Hsp Hst Hmv Hde Him Hpa Hco Hre currentTime w w' Hw.
  unfold gameLoop.
  destruct (negb (isPlaying (state w))); [intros [= <-]; exact Hw|].
  match goal with |- context [updateAsteroids ?d ?v] =>
    assert (H3 : I v);
    [| destruct (updateAsteroids d v) as [w4|] eqn:Hua; [|discriminate];
       assert (H4 : I w4)
         by (exact (updateAsteroidsFrom_invariant I _ _ Hmv Hde Him _ _ _ H3 Hua)) ]
  end.
  { assert (H2 : I (upd (fun s => set_gameTime
                                    (n_add (gameTime s)
                                       (n_sub currentTime (lastFrameTime w))) s)
                      (set_lastFrameTime currentTime w))).
    { exact (Hgt _ _ (Hft currentTime w Hw)). }
    destruct (n_ltb _ _); [|exact H2]. apply Hst, Hsp, H2. }
  rewrite updateParticles_spec. intros [= <-].
  apply Hre, Hco, Hpa, H4.
Qed.

(** A property kept by [startGame], by each step of a frame and by
    [onHandResults] is kept by everything the browser calls. *)
Lemma run_invariant (I : World A -> Prop) :
  (forall t w, I w -> I (startGame true t w)) ->
  (forall t w w', I w -> gameLoop t w = Some w' -> I w') ->
  (forall hands w w', I w -> onHandResults hands w = Some w' -> I w') ->
  forall acts w, I w -> I (run acts w).
Proof.
  intros Hstart Hframe Hhand acts.
  induction acts as [|a acts IH]; intros w Hw; [exact Hw|].
  cbn [run List.fold_left]. apply IH.
  destruct a as [ready t | t | hands]; cbn [act].
  - destruct ready; [apply Hstart; exact Hw | exact Hw].
  - destruct (gameLoop t w) as [w'|] eqn:Hg; [|exact Hw].
    eapply Hframe; eassumption.
  - destruct (onHandResults hands w) as [w'|] eqn:Hh; [|exact Hw].
    eapply Hhand; eassumption.
Qed.

(** *** What a frame leaves of the cursor *)

Lemma spawnAsteroid_keeps (w : World A) :
  exists a k,
    spawnAsteroid w
    = set_randomPos k (upd (set_asteroids (asteroids (state w) ++ [a])) w).
Proof.
  destruct (spawnAsteroid_spec w) as (a & k & Hw & _). exists a, k. exact Hw.
Qed.

Lemma gameLoop_cursor (currentTime : A) (w w' : World A) :
  gameLoop currentTime w = Some w' ->
  fingerPosition (state w') = fingerPosition (state w)
  /\ positionHistory (state w') = positionHistory (state w).
Proof.
  apply (gameLoop_invariant
           (fun v => fingerPosition (state v) = fingerPosition (state w)
                     /\ positionHistory (state v) = positionHistory (state w))).
  - intros t v Hv. exact Hv.
  - intros t v Hv. exact Hv.
  - intros v Hv. destruct (spawnAsteroid_keeps v) as (a & k & ->). exact Hv.
  - intros t v Hv. exact Hv.
  - intros i a v Hv _. exact Hv.
  - intros i a v Hv _. unfold destroyAsteroid.
    destruct (createExplosion_frame (a_x a) (a_y a) (a_radius a) v)
      as (ps & k & ->).
    exact Hv.
  - intros i a v Hv _. unfold impactAsteroid, loseLife, gameOver.
    cbn [upd state set_asteroids set_lives lives record].
    destruct (n_leb _ _); [|exact Hv].
    cbn [upd state set_isPlaying score highScore].
    destruct (n_ltb _ _); exact Hv.
  - intros v Hv. exact Hv.
  - intros v Hv. unfold checkComboTimeout. cbn [Date_now].
    destruct (_ && _); exact Hv.
  - intros v Hv. unfold render. destruct (n_ltb _ _); exact Hv.
  - split; reflexivity.
Qed.

End InvariantLaws.

Section TrailLaws.
Context {A : Type} `{Number A} `{MathObj A}.

Lemma onHandResults_trail_length (hands : option (list (list (Landmark A))))
    (w w' : World A) :
  (length (positionHistory (state w)) <= 15)%nat ->
  onHandResults hands w = Some w' ->
  (length (positionHistory (state w')) <= 15)%nat.
Proof.
  intros Hw. unfold onHandResults.
  destruct hands as [[|landmarks others]|].
  - cbv beta iota. destruct (debugMode _); intros [= <-]; exact Hw.
  - destruct (length landmarks <? 21)%nat; [discriminate|].
    destruct (landmarks !! 8%nat) as [tip|]; [|discriminate].
    cbv zeta. intros [= <-].
    cbn [upd state set_positionHistory set_fingerPosition positionHistory].
    apply trail_cases. exact Hw.
  - cbv beta iota. destruct (debugMode _); intros [= <-]; exact Hw.
Qed.

(** X2. A trail of at most 15 points stays one, whatever the browser
    calls (restarts, frames, tracker results); and a frame moves neither
    the cursor nor the trail: only a tracker result does. *)
Theorem trail_bounded (acts : list (Action A)) (w : World A) :
  (length (positionHistory (state w)) <= 15)%nat ->
  (length (positionHistory (state (run acts w))) <= 15)%nat
  /\ (forall (currentTime : A) (v v' : World A),
        gameLoop currentTime v = Some v' ->
        fingerPosition (state v') = fingerPosition (state v)
        /\ positionHistory (state v') = positionHistory (state v)).
Proof.
  intros Hw. split; [|apply gameLoop_cursor].
  apply (run_invariant
           (fun v => (length (positionHistory (state v)) <= 15)%nat)).
  - intros t v _. cbn. lia.
  - intros t v v' Hv Hrun.
    destruct (gameLoop_cursor t v v' Hrun) as [_ ->]. exact Hv.
  - intros hands v v' Hv Hrun.
    exact (onHandResults_trail_length hands v v' Hv Hrun).
  - exact Hw.
Qed.

End TrailLaws.

Lemma trail_bounded_witness :
  (length (positionHistory (state (freshSession (A := R) threeDestroysClock)))
   <= 15)%nat
  /\ (length (positionHistory
                (state (run [ActHand (Some [sampleHand]); ActFrame (IZR 16);
                             ActHand None; ActHand (Some [sampleHand])]
                          (freshSession (A := R) threeDestroysClock))))
      <= 15)%nat.
Proof.
  assert (Hw : (length (positionHistory
                          (state (freshSession (A := R) threeDestroysClock)))
                <= 15)%nat) by (cbn; lia).
  split; [exact Hw|].
  apply (trail_bounded
           [ActHand (Some [sampleHand]); ActFrame (IZR 16);
            ActHand None; ActHand (Some [sampleHand])]
           (freshSession (A := R) threeDestroysClock) Hw).
Defined.

(** ** The polygon loop *)

Section ShapeLaws.
Context {A : Type} `{Number A} `{MathObj A}.

Lemma shapeLoop_exact (n : nat) (i numVertices : Z) (vs : list (Vertex A))
    (w : World A) :
  shapeLoop n i numVertices vs w
  = (vs ++ List.map (fun j => vertexAt numVertices (i + Z.of_nat j)
                                (randomSeq w (randomPos w + j)))
             (List.seq 0 n),
     set_randomPos (randomPos w + n) w).
Proof.
  revert i vs w. induction n as [|n IH]; intros i vs w.
  - cbn. rewrite app_nil_r, Nat.add_0_r. destruct w; reflexivity.
  - cbn [shapeLoop Math_random]. rewrite IH.
    cbn [set_randomPos randomSeq randomPos].
    rewrite <- app_assoc. cbn [List.seq List.map app].
    rewrite <- List.seq_shift, List.map_map.
    rewrite Z.add_0_r, Nat.add_0_r.
    f_equal.
    + f_equal. f_equal. apply List.map_ext. intros j.
      replace (i + 1 + Z.of_nat j)%Z with (i + Z.of_nat (S j))%Z by lia.
      replace (S (randomPos w) + j)%nat with (randomPos w + S j)%nat by lia.
      reflexivity.
    + replace (S (randomPos w) + n)%nat with (randomPos w + S n)%nat by lia.
      reflexivity.
Qed.

Lemma generateAsteroidShape_exact (w : World A) :
  let numVertices := (8 + Math_floor (n_mul (randomSeq w (randomPos w)) (ofZ 5)))%Z in
  generateAsteroidShape w
  = (List.map (fun j => vertexAt numVertices (Z.of_nat j)
                          (randomSeq w (randomPos w + 1 + j)))
       (List.seq 0 (Z.to_nat numVertices)),
     set_randomPos (randomPos w + 1 + Z.to_nat numVertices) w).
Proof.
  cbv zeta. unfold generateAsteroidShape. cbn [Math_random].
  rewrite shapeLoop_exact. cbn [set_randomPos randomSeq randomPos app].
  f_equal.
  - apply List.map_ext. intros j. rewrite Z.add_0_l.
    replace (S (randomPos w) + j)%nat with (randomPos w + 1 + j)%nat by lia.
    reflexivity.
  - replace (S (randomPos w) + Z.to_nat (8 + Math_floor (n_mul (randomSeq w (randomPos w)) (ofZ 5))))%nat
      with (randomPos w + 1 + Z.to_nat (8 + Math_floor (n_mul (randomSeq w (randomPos w)) (ofZ 5))))%nat by lia.
    reflexivity.
Qed.

End ShapeLaws.

(** ** The loops of the fallback tracker *)

Section FallbackLaws.
Context {A : Type} `{Number A}.

Lemma half_up_spec (n k : nat) : (2 * k < n)%nat <-> (k < (n + 1) / 2)%nat.
Proof.
  pose proof (Nat.div_mod_eq (n + 1) 2) as Hd.
  pose proof (Nat.mod_upper_bound (n + 1) 2) as Hm.
  lia.
Qed.

Lemma half_up_le (n : nat) : ((n + 1) / 2 <= n)%nat.
Proof.
  destruct (le_lt_dec ((n + 1) / 2) n) as [Hle|Hlt]; [exact Hle|].
  apply half_up_spec in Hlt. lia.
Qed.

Lemma scanRow_fold (width : nat) (data : nat -> A) (y : nat) :
  forall fuel k acc,
    ((width + 1) / 2 <= k + fuel)%nat ->
    scanRow fuel width data y (2 * k) acc
    = List.fold_left (samplePixel width data y)
        (List.map (fun j => (2 * j)%nat) (List.seq k ((width + 1) / 2 - k))) acc.
Proof.
  induction fuel as [|fuel IH]; intros k acc Hk.
  - replace ((width + 1) / 2 - k)%nat with 0%nat by lia. reflexivity.
  - cbn [scanRow]. destruct (2 * k <? width)%nat eqn:Hlt.
    + apply Nat.ltb_lt, half_up_spec in Hlt.
      replace ((width + 1) / 2 - k)%nat with (S ((width + 1) / 2 - S k))
        by lia.
      cbn [List.seq List.map List.fold_left].
      replace (2 * k + 2)%nat with (2 * S k)%nat by lia.
      apply IH. lia.
    + apply Nat.ltb_ge in Hlt.
      assert (Hge : ~ (k < (width + 1) / 2)%nat)
        by (rewrite <- half_up_spec; lia).
      replace ((width + 1) / 2 - k)%nat with 0%nat by lia. reflexivity.
Qed.

Lemma scanRow_evenBelow (width : nat) (data : nat -> A) (y : nat)
    (acc : A * A * A) :
  scanRow width width data y 0 acc
  = List.fold_left (samplePixel width data y) (evenBelow width) acc.
Proof.
  change 0%nat with (2 * 0)%nat at 1.
  rewrite (scanRow_fold width data y width 0 acc)
    by (pose proof (half_up_le width); lia).
  rewrite Nat.sub_0_r. reflexivity.
Qed.

Lemma scanRows_fold (width height : nat) (data : nat -> A) :
  forall fuel k acc,
    ((height + 1) / 2 <= k + fuel)%nat ->
    scanRows fuel width height data (2 * k) acc
    = List.fold_left
        (fun acc' y => List.fold_left (samplePixel width data y)
                         (evenBelow width) acc')
        (List.map (fun j => (2 * j)%nat) (List.seq k ((height + 1) / 2 - k)))
        acc.
Proof.
  induction fuel as [|fuel IH]; intros k acc Hk.
  - replace ((height + 1) / 2 - k)%nat with 0%nat by lia. reflexivity.
  - cbn [scanRows]. destruct (2 * k <? height)%nat eqn:Hlt.
    + apply Nat.ltb_lt, half_up_spec in Hlt.
      replace ((height + 1) / 2 - k)%nat with (S ((height + 1) / 2 - S k))
        by lia.
      cbn [List.seq List.map List.fold_left].
      replace (2 * k + 2)%nat with (2 * S k)%nat by lia.
      rewrite scanRow_evenBelow. apply IH. lia.
    + apply Nat.ltb_ge in Hlt.
      assert (Hge : ~ (k < (height + 1) / 2)%nat)
        by (rewrite <- half_up_spec; lia).
      replace ((height + 1) / 2 - k)%nat with 0%nat by lia. reflexivity.
Qed.

(** The two nested loops visit the sample points in order. *)
Lemma scanRows_samplePoints (width height : nat) (data : nat -> A)
    (acc : A * A * A) :
  scanRows height width height data 0 acc
  = List.fold_left (fun acc' p => samplePixel width data (fst p) acc' (snd p))
      (samplePoints width height) acc.
Proof.
  change 0%nat with (2 * 0)%nat at 1.
  rewrite (scanRows_fold width height data height 0 acc)
    by (pose proof (half_up_le height); lia).
  rewrite Nat.sub_0_r. fold (evenBelow height). unfold samplePoints.
  generalize (evenBelow height) as ys. intros ys. revert acc.
  induction ys as [|y ys IH]; intros acc; [reflexivity|].
  cbn [List.fold_left List.flat_map]. rewrite List.fold_left_app, <- IH.
  f_equal. generalize (evenBelow width) as xs. intros xs. revert acc.
  induction xs as [|x xs IHx]; intros acc; [reflexivity|].
  cbn [List.map List.fold_left fst snd]. apply IHx.
Qed.

Lemma samplePoints_below (width height : nat) (p : nat * nat) :
  In p (samplePoints width height) ->
  (fst p < height)%nat /\ (snd p < width)%nat.
Proof.
  unfold samplePoints, evenBelow. rewrite List.in_flat_map.
  intros (y & Hy & Hp).
  apply List.in_map_iff in Hy. destruct Hy as (j & <- & Hj).
  apply List.in_seq in Hj.
  apply List.in_map_iff in Hp. destruct Hp as (x & <- & Hx).
  apply List.in_map_iff in Hx. destruct Hx as (i & <- & Hi).
  apply List.in_seq in Hi. cbn [fst snd].
  split; apply half_up_spec; lia.
Qed.

End FallbackLaws.
(** ** Laws of the exact arithmetic *)

Local Open Scope R_scope.

Lemma Rltb_true (x y : R) : Rltb x y = true <-> x < y.
Proof. unfold Rltb. destruct (Rlt_dec x y); split; intros; try lra; congruence. Qed.

Lemma Rltb_false (x y : R) : Rltb x y = false <-> y <= x.
Proof. unfold Rltb. destruct (Rlt_dec x y); split; intros; try lra; congruence. Qed.

Lemma Rleb_true (x y : R) : Rleb x y = true <-> x <= y.
Proof. unfold Rleb. destruct (Rle_dec x y); split; intros; try lra; congruence. Qed.

Lemma Rleb_false (x y : R) : Rleb x y = false <-> y < x.
Proof. unfold Rleb. destruct (Rle_dec x y); split; intros; try lra; congruence. Qed.

(** *** Particles *)

Lemma isDead_true (p : Particle R) :
  isDead p = true <-> life p <= 0 \/ p_radius p < 1 / 2.
Proof.
  unfold isDead, frac. rnum. rewrite orb_true_iff, Rleb_true, Rltb_true.
  split; intros [?|?]; [left|right|left|right]; lra.
Qed.

Lemma isDead_false (p : Particle R) :
  isDead p = false <-> 0 < life p /\ 1 / 2 <= p_radius p.
Proof.
  unfold isDead, frac. rnum. rewrite orb_false_iff, Rleb_false, Rltb_false.
  split; intros [? ?]; split; lra.
Qed.

Lemma iter_stepParticle_life (n : nat) (p : Particle R) :
  life (Nat.iter n stepParticle p) = life p - INR n * decay p
  /\ decay (Nat.iter n stepParticle p) = decay p.
Proof.
  induction n as [|n [IHl IHd]].
  - simpl. split; [lra | reflexivity].
  - rewrite S_INR, Nat.iter_succ. unfold stepParticle at 1 3.
    cbn [life decay]. rnum. rewrite IHl, IHd. split; [lra | reflexivity].
Qed.

Lemma iter_stepParticle_radius (n : nat) (p : Particle R) :
  p_radius (Nat.iter n stepParticle p) = p_radius p * (97 / 100) ^ n.
Proof.
  induction n as [|n IH].
  - simpl. lra.
  - rewrite Nat.iter_succ. unfold stepParticle at 1.
    cbn [p_radius pow]. unfold frac. rnum. rewrite IH. lra.
Qed.

Lemma pow_97_antitone (n m : nat) :
  (n <= m)%nat -> (97 / 100) ^ m <= (97 / 100) ^ n.
Proof.
  induction 1 as [|m _ IH]; [lra|].
  cbn [pow]. assert (0 < (97 / 100) ^ m) by (apply pow_lt; lra). nra.
Qed.

Lemma pow_97_49 : 1 / 6 <= (97 / 100) ^ 49.
Proof. simpl. lra. Qed.

(** A particle that starts with life 1, decay 0.02 and a radius of at least
    3 is alive after each of its first 49 steps. *)
Lemma alive_before_fifty (n : nat) (p : Particle R) :
  life p = 1 -> decay p = 2 / 100 -> 3 <= p_radius p -> (n <= 49)%nat ->
  isDead (Nat.iter n stepParticle p) = false.
Proof.
  intros Hl Hd Hr Hn. apply isDead_false.
  destruct (iter_stepParticle_life n p) as [-> _].
  rewrite iter_stepParticle_radius, Hl, Hd. split.
  - assert (INR n <= 49) by (replace 49 with (INR 49) by (simpl; lra); apply le_INR, Hn).
    lra.
  - pose proof (pow_97_antitone n 49 Hn). pose proof pow_97_49.
    assert (0 < (97 / 100) ^ n) by (apply pow_lt; lra). nra.
Qed.

Lemma dead_at_fifty (p : Particle R) :
  life p = 1 -> decay p = 2 / 100 ->
  life (Nat.iter 50 stepParticle p) <= 0.
Proof.
  intros Hl Hd. destruct (iter_stepParticle_life 50 p) as [-> _].
  rewrite Hl, Hd. simpl. lra.
Qed.

(** C10. A pass of [updateParticles] never fails; it changes nothing but
    the particle store; the store it leaves is the list of the one-step
    images of the particles that were there, in their order, less the dead
    ones (so each survivor was stepped exactly once, whatever was removed
    around it); every particle left has [life > 0] and [radius >= 0.5];
    and the store has not grown. *)
Theorem C10_updateParticles_pass (w : World R) :
  exists w',
    updateParticles w = Some w'
    /\ w' = upd (set_particles (particles (state w'))) w
    /\ particles (state w')
       = List.filter (fun p => negb (isDead p))
           (List.map stepParticle (particles (state w)))
    /\ Forall (fun p => 0 < life p /\ 1 / 2 <= p_radius p) (particles (state w'))
    /\ (length (particles (state w')) <= length (particles (state w)))%nat.
Proof.
  eexists. split; [apply updateParticles_spec|].
  split; [reflexivity|]. split; [reflexivity|]. split.
  - cbn [upd state set_particles particles]. unfold survivors.
    apply List.Forall_forall. intros p Hin.
    apply List.filter_In in Hin. destruct Hin as [_ Hp].
    apply negb_true_iff in Hp. apply isDead_false. exact Hp.
  - cbn [upd state set_particles particles]. unfold survivors.
    etransitivity; [apply List.filter_length_le|].
    rewrite List.length_map. reflexivity.
Qed.

(** What [createExplosion] gives a particle, for draws in [[0, 1)]: life
    1, a radius of at least 3 and a decay of at least 0.02. *)
Lemma explodedIn_start (w : World R) (x y : R) (p : Particle R) :
  (forall k, 0 <= randomSeq w k < 1) ->
  explodedIn w x y p ->
  life p = 1 /\ 3 <= p_radius p /\ 2 / 100 <= decay p.
Proof.
  intros Hrand (r0 & r1 & r2 & r3 & r4 & _ & _ & _ & (k3 & ->) & (k4 & ->) & ->).
  cbn [life p_radius decay]. unfold frac. rnum.
  pose proof (Hrand k3). pose proof (Hrand k4).
  repeat split; lra.
Qed.

Lemma created_particle_start (w0 : World R) (x y size : R)
    (new : list (Particle R)) (p : Particle R) :
  (forall k, 0 <= randomSeq w0 k < 1) ->
  particles (state (createExplosion x y size w0)) = particles (state w0) ++ new ->
  In p new ->
  life p = 1 /\ 3 <= p_radius p /\ 2 / 100 <= decay p.
Proof.
  intros Hrand Hnew Hin.
  destruct (createExplosion_particles x y size w0) as (ps & Hps & _ & Hall).
  rewrite Hps in Hnew. apply app_inv_head in Hnew. subst ps.
  apply (explodedIn_start w0 x y p Hrand).
  rewrite List.Forall_forall in Hall. apply Hall. exact Hin.
Qed.

(** C7. A particle that [createExplosion] has made (from draws in
    [[0, 1)]) with decay 0.02, anywhere in a store of any content: it has
    life 1 and a radius of at least 3; after each of the first 49 passes of
    [updateParticles] it is still in the store, at its place between what
    is left of the particles before it and after it, with a positive life, a
    radius of at least 0.5 and its decay unchanged; the 50th pass removes
    it, its life having reached 0 or less, and removes nothing else on its
    account.  Every step subtracts the decay from the life, leaves the decay
    as it is, multiplies the velocity by 0.98 and the radius by 0.97.  And
    in every pass over every store, a particle is removed exactly when,
    after its step, its life is at most 0 or its radius below 0.5;
    otherwise its stepped image stays at its place. *)
Theorem C7_particle_fifty_steps (w0 : World R) (x y size : R)
    (new : list (Particle R)) (p : Particle R)
    (w : World R) (pre suf : list (Particle R)) :
  (forall k, 0 <= randomSeq w0 k < 1) ->
  particles (state (createExplosion x y size w0)) = particles (state w0) ++ new ->
  In p new ->
  decay p = 2 / 100 ->
  particles (state w) = pre ++ p :: suf ->
  (life p = 1 /\ 3 <= p_radius p)
  /\ (forall n, (n <= 49)%nat ->
        exists w', particlePasses n w = Some w'
          /\ particles (state w')
             = Nat.iter n survivors pre
               ++ Nat.iter n stepParticle p :: Nat.iter n survivors suf
          /\ 0 < life (Nat.iter n stepParticle p)
          /\ 1 / 2 <= p_radius (Nat.iter n stepParticle p)
          /\ decay (Nat.iter n stepParticle p) = 2 / 100)
  /\ (exists w', particlePasses 50 w = Some w'
        /\ particles (state w')
           = Nat.iter 50 survivors pre ++ Nat.iter 50 survivors suf
        /\ life (Nat.iter 50 stepParticle p) <= 0)
  /\ (forall q : Particle R,
        life (stepParticle q) = life q - decay q
        /\ decay (stepParticle q) = decay q
        /\ p_vx (stepParticle q) = p_vx q * (98 / 100)
        /\ p_vy (stepParticle q) = p_vy q * (98 / 100)
        /\ p_radius (stepParticle q) = p_radius q * (97 / 100))
  /\ (forall (v : World R) (l1 l2 : list (Particle R)) (q : Particle R),
        particles (state v) = l1 ++ q :: l2 ->
        exists v', updateParticles v = Some v'
          /\ (life (stepParticle q) <= 0 \/ p_radius (stepParticle q) < 1 / 2 ->
                particles (state v') = survivors l1 ++ survivors l2)
          /\ (0 < life (stepParticle q) /\ 1 / 2 <= p_radius (stepParticle q) ->
                particles (state v')
                = survivors l1 ++ stepParticle q :: survivors l2)).
Proof.
  intros Hrand Hnew Hin Hd Hw.
  destruct (created_particle_start w0 x y size new p Hrand Hnew Hin)
    as (Hl & Hr & _).
  assert (Halive : forall k, (k <= 49)%nat ->
                     isDead (Nat.iter k stepParticle p) = false)
    by (intros k Hk; apply alive_before_fifty; assumption).
  pose proof (dead_at_fifty p Hl Hd) as Hdead.
  split; [split; assumption|]. split; [|split; [|split]].
  - intros n Hn. eexists. split; [apply particlePasses_spec|].
    cbn [upd state set_particles particles]. rewrite Hw.
    change (p :: suf) with ([p] ++ suf).
    rewrite !iter_survivors_app.
    rewrite (iter_survivors_alive n p) by (intros k Hk; apply Halive; lia).
    split; [reflexivity|].
    pose proof (Halive n Hn) as Ha. apply isDead_false in Ha.
    destruct Ha as [Ha1 Ha2]. split; [exact Ha1|]. split; [exact Ha2|].
    destruct (iter_stepParticle_life n p) as [_ ->]. exact Hd.
  - eexists. split; [apply particlePasses_spec|].
    cbn [upd state set_particles particles]. rewrite Hw.
    change (p :: suf) with ([p] ++ suf).
    rewrite !iter_survivors_app. split; [|exact Hdead].
    assert (H50 : Nat.iter 50 survivors [p] = []).
    { rewrite (Nat.iter_succ 49 survivors).
      rewrite (iter_survivors_alive 49 p) by (intros k Hk; apply Halive; lia).
      rewrite survivors_single, <- (Nat.iter_succ 49 stepParticle p).
      assert (Hdd : isDead (Nat.iter 50 stepParticle p) = true)
        by (apply isDead_true; left; exact Hdead).
      rewrite Hdd. reflexivity. }
    rewrite H50. reflexivity.
  - intros q. unfold stepParticle, frac. cbn [life decay p_vx p_vy p_radius].
    rnum. repeat split; reflexivity.
  - intros v l1 l2 q Hv. eexists.
    split; [apply (updateParticles_middle v l1 l2 q Hv)|].
    cbn [upd state set_particles particles]. split.
    + intros Hgone. apply isDead_true in Hgone. rewrite Hgone. reflexivity.
    + intros Hstay. apply isDead_false in Hstay. rewrite Hstay. reflexivity.
Qed.

(** An explosion of size 30 in a session whose draws are all 0 makes 20
    particles, all the same. *)
Lemma explosion_of_zero_draws :
  particles (state (createExplosion 400 300 30 (sessionDrawing 0)))
  = List.repeat (zeroDrawParticle (A := R) 400 300) 20.
Proof.
  destruct (createExplosion_particles 400 300 30 (sessionDrawing (A := R) 0))
    as (ps & Hps & Hlen & Hall).
  assert (H20 : length ps = 20%nat).
  { rewrite Hlen. unfold particleCount. cbn [Math_floor R_Math]. rnum.
    replace (20 * (30 / 30)) with (IZR 20) by lra.
    rewrite <- (Int_part_spec (IZR 20) 20) by lra. reflexivity. }
  rewrite Hps. change (particles (state (sessionDrawing (A := R) 0))) with (@nil (Particle R)).
  rewrite List.app_nil_l, <- H20. apply List.Forall_eq_repeat.
  eapply List.Forall_impl; [|exact Hall].
  intros p (r0 & r1 & r2 & r3 & r4 & (k0 & ->) & (k1 & ->) & (k2 & ->)
            & (k3 & ->) & (k4 & ->) & ->).
  reflexivity.
Qed.

Lemma C7_particle_fifty_steps_witness :
  let p := zeroDrawParticle (A := R) 400 300 in
  let w0 := sessionDrawing (A := R) 0 in
  let w := createExplosion 400 300 30 w0 in
  (forall k, 0 <= randomSeq w0 k < 1)
  /\ particles (state w) = particles (state w0) ++ List.repeat p 20
  /\ In p (List.repeat p 20)
  /\ decay p = 2 / 100
  /\ particles (state w) = [] ++ p :: List.repeat p 19
  /\ exists w',
       particlePasses 50 w = Some w'
       /\ particles (state w')
          = Nat.iter 50 survivors [] ++ Nat.iter 50 survivors (List.repeat p 19).
Proof.
  intros p w0 w.
  assert (Hrand : forall k, 0 <= randomSeq w0 k < 1)
    by (intros k; cbn; lra).
  assert (Hps : particles (state w) = particles (state w0) ++ List.repeat p 20)
    by (subst w w0 p; rewrite explosion_of_zero_draws; reflexivity).
  assert (Hin : In p (List.repeat p 20)) by (left; reflexivity).
  assert (Hd : decay p = 2 / 100) by (cbn; lra).
  assert (Hw : particles (state w) = [] ++ p :: List.repeat p 19)
    by (subst w w0 p; rewrite explosion_of_zero_draws; reflexivity).
  destruct (C7_particle_fifty_steps w0 400 300 30 (List.repeat p 20) p w []
              (List.repeat p 19) Hrand Hps Hin Hd Hw)
    as (_ & _ & (w' & Hrun & Hleft & _) & _).
  repeat split; try assumption; try apply Hrand.
  exists w'. split; assumption.
Defined.

(** The same run in binary64, the arithmetic of the engine: the particle
    is alive after each of the first 49 steps, its life is then still
    positive, the 50th step brings the life to 0 or less, and the
    50th pass of [updateParticles] empties the store. *)
Lemma binary64_particle_fifty_steps :
  forallb (fun n => negb (isDead (Nat.iter n stepParticle (freshParticle (A := PrimFloat.float)))))
    (List.seq 0 50) = true
  /\ PrimFloat.ltb PrimFloat.zero (life (Nat.iter 49 stepParticle (freshParticle (A := PrimFloat.float)))) = true
  /\ PrimFloat.leb (life (Nat.iter 50 stepParticle (freshParticle (A := PrimFloat.float)))) PrimFloat.zero = true
  /\ option_map (fun w => length (particles (state w)))
       (particlePasses 49 (oneParticleWorld (A := PrimFloat.float))) = Some 1%nat
  /\ option_map (fun w => length (particles (state w)))
       (particlePasses 50 (oneParticleWorld (A := PrimFloat.float))) = Some 0%nat.
Proof. vm_compute. repeat split; reflexivity. Qed.

(** *** Collisions *)

Lemma hitsCursor_true (fp : FingerPosition R) (a : Asteroid R) :
  hitsCursor fp a = true
  <-> detected fp = true
      /\ sqrt ((a_x a - fp_x fp) * (a_x a - fp_x fp)
               + (a_y a - fp_y fp) * (a_y a - fp_y fp))
         < a_radius a + 60.
Proof.
  unfold hitsCursor, cursorRadius. cbn [Math_sqrt R_Math]. rnum.
  destruct (detected fp).
  - rewrite Rltb_true. tauto.
  - split; [discriminate | intros [? _]; discriminate].
Qed.

Lemma reachesCenter_true (cx cy : R) (a : Asteroid R) :
  reachesCenter cx cy a = true
  <-> sqrt ((a_x a - cx) * (a_x a - cx) + (a_y a - cy) * (a_y a - cy)) < 50.
Proof.
  unfold reachesCenter. cbn [Math_sqrt Math_pow2 R_Math]. rnum.
  apply Rltb_true.
Qed.

(** C4. In a call of [updateAsteroids], an asteroid of the array is
    destroyed by the cursor (the cursor branch is taken for it, after it has
    been moved) exactly when the cursor is detected and the Euclidean
    distance from the moved asteroid to the cursor is strictly less than its
    radius plus 60.  Nothing else is destroyed, a destroyed asteroid is no
    longer in the array, and with no cursor detected nothing is
    destroyed. *)
Theorem C4_cursor_collision (deltaTime : R) (w : World R) :
  exists w' es,
    updateAsteroids deltaTime w = Some w'
    /\ history w' = history w ++ es
    /\ (forall a, In a (asteroids (state w)) ->
          (In (EvDestroyed (moveAsteroid a)) es
           <-> detected (fingerPosition (state w)) = true
               /\ sqrt ((a_x (moveAsteroid a) - fp_x (fingerPosition (state w)))
                        * (a_x (moveAsteroid a) - fp_x (fingerPosition (state w)))
                        + (a_y (moveAsteroid a) - fp_y (fingerPosition (state w)))
                          * (a_y (moveAsteroid a) - fp_y (fingerPosition (state w))))
                  < a_radius (moveAsteroid a) + 60))
    /\ (forall a', In (EvDestroyed a') es ->
          (exists a, In a (asteroids (state w)) /\ a' = moveAsteroid a)
          /\ ~ In a' (asteroids (state w')))
    /\ (detected (fingerPosition (state w)) = false ->
          forall a', ~ In (EvDestroyed a') es).
Proof.
  destruct (updateAsteroids_spec deltaTime w) as (w' & Hrun & Has & Hh & _).
  cbv zeta in Has, Hh. eexists w', _.
  split; [exact Hrun|]. split; [exact Hh|]. split; [|split].
  - intros a Hin. rewrite In_removals_destroyed, hitsCursor_true.
    split; [tauto|]. intros Hc. split; [|exact Hc].
    apply List.in_map. exact Hin.
  - intros a' Hd. apply In_removals_destroyed in Hd. destruct Hd as [Hin Hhit].
    split.
    + apply List.in_map_iff in Hin. destruct Hin as (a & <- & Hin).
      exists a. split; [exact Hin | reflexivity].
    + rewrite Has, In_remaining. intros (_ & Hno & _). congruence.
  - intros Hnd a' Hd. apply In_removals_destroyed in Hd. destruct Hd as [_ Hhit].
    apply hitsCursor_true in Hhit. destruct Hhit as [Hdet _]. congruence.
Qed.

(** The boundary of the cursor test: an asteroid of radius [r] at
    distance [d] to the right of a detected cursor is hit exactly when
    [d < r + 60]; so it is hit at [r + 60 - eps], and neither at [r + 60]
    nor at [r + 60 + eps]. *)
Lemma cursor_boundary (x y r d : R) :
  0 <= d ->
  (hitsCursor (cursorAt x y) (asteroidAt (x + d) y r) = true <-> d < r + 60).
Proof.
  intros Hd. rewrite hitsCursor_true. cbn [cursorAt asteroidAt detected a_x a_y
    a_radius fp_x fp_y].
  replace ((x + d - x) * (x + d - x) + (y - y) * (y - y)) with (d * d) by ring.
  rewrite sqrt_square by exact Hd. tauto.
Qed.

Lemma cursor_boundary_cases (x y r eps : R) :
  0 <= r -> 0 < eps <= r + 60 ->
  hitsCursor (cursorAt x y) (asteroidAt (x + (r + 60 - eps)) y r) = true
  /\ hitsCursor (cursorAt x y) (asteroidAt (x + (r + 60)) y r) = false
  /\ hitsCursor (cursorAt x y) (asteroidAt (x + (r + 60 + eps)) y r) = false.
Proof.
  intros Hr Heps. split; [|split].
  - apply cursor_boundary; lra.
  - apply not_true_is_false. rewrite cursor_boundary; lra.
  - apply not_true_is_false. rewrite cursor_boundary; lra.
Qed.

Lemma sqrt_lt_bound (x b : R) : 0 <= x -> 0 <= b -> x < b * b -> sqrt x < b.
Proof.
  intros Hx Hb Hlt. rewrite <- (sqrt_square b Hb).
  apply sqrt_lt_1_alt. split; assumption.
Qed.

Lemma sqrt_ge_bound (x b : R) : 0 <= b -> b * b <= x -> b <= sqrt x.
Proof.
  intros Hb Hle. rewrite <- (sqrt_square b Hb) at 1.
  apply sqrt_le_1_alt. exact Hle.
Qed.

(** *** Lives *)

(** Once the session is not playing, a frame does nothing. *)
Lemma gameLoop_not_playing (currentTime : R) (w : World R) :
  isPlaying (state w) = false -> gameLoop currentTime w = Some w.
Proof. intros Hp. unfold gameLoop. rewrite Hp. reflexivity. Qed.

(** C2 (the code departs from the claim). One call of [updateAsteroids]
    with one life left and two asteroids reaching the centre in that step:
    the first impact brings the lives to 0 and ends the session, and the
    loop goes on to the other asteroid, takes a life again (lives -1) and
    runs [gameOver] a second time, which hides the new-high-score notice
    the first run had shown.  With one of the two asteroids alone the
    session ends with 0 lives and the notice shown. *)
Theorem C2_impact_after_game_over :
  (exists w',
     updateAsteroids 16 (lastLifeWorld [inboundEast; inboundSouth]) = Some w'
     /\ history w' = [EvImpact (moveAsteroid inboundSouth);
                      EvImpact (moveAsteroid inboundEast)]
     /\ lives (state w') = -1
     /\ isPlaying (state w') = false
     /\ highScore (state w') = 120
     /\ newHighScoreHidden w' = true)
  /\ (exists w',
        updateAsteroids 16 (lastLifeWorld [inboundSouth]) = Some w'
        /\ history w' = [EvImpact (moveAsteroid inboundSouth)]
        /\ lives (state w') = 0
        /\ isPlaying (state w') = false
        /\ highScore (state w') = 120
        /\ newHighScoreHidden w' = false).
Proof.
  assert (HcS : reachesCenter (800 / 2) (600 / 2) (moveAsteroid inboundSouth) = true).
  { apply reachesCenter_true. cbn. apply sqrt_lt_bound; lra. }
  assert (HcE : reachesCenter (800 / 2) (600 / 2) (moveAsteroid inboundEast) = true).
  { apply reachesCenter_true. cbn. apply sqrt_lt_bound; lra. }
  split; eexists.
  - split.
    + unfold updateAsteroids. cbn [length lastLifeWorld worldAround state
        set_asteroids asteroids canvasWidth canvasHeight updateAsteroidsFrom].
      rnum.
      erewrite updateAsteroidAt_impact; [|reflexivity|reflexivity|exact HcS].
      unfold impactAsteroid.
      rewrite loseLife_last by (apply Rleb_true; cbn; lra).
      rewrite gameOver_new_high by (apply Rltb_true; cbn; lra).
      cbv beta iota.
      erewrite updateAsteroidAt_impact; [|reflexivity|reflexivity|exact HcE].
      unfold impactAsteroid.
      rewrite loseLife_last by (apply Rleb_true; cbn; lra).
      rewrite gameOver_no_high by (apply Rltb_false; cbn; lra).
      reflexivity.
    + cbn. repeat split; try reflexivity; lra.
  - split.
    + unfold updateAsteroids. cbn [length lastLifeWorld worldAround state
        set_asteroids asteroids canvasWidth canvasHeight updateAsteroidsFrom].
      rnum.
      erewrite updateAsteroidAt_impact; [|reflexivity|reflexivity|exact HcS].
      unfold impactAsteroid.
      rewrite loseLife_last by (apply Rleb_true; cbn; lra).
      rewrite gameOver_new_high by (apply Rltb_true; cbn; lra).
      reflexivity.
    + cbn. repeat split; try reflexivity; lra.
Qed.

(** *** Combo and score *)

Lemma Int_part_half (z : Z) : Int_part (IZR z + / 2) = z.
Proof. symmetry. apply Int_part_spec. lra. Qed.

Lemma round_IZR (z : Z) : Math_round (IZR z) = IZR z.
Proof. cbn [Math_round R_Math]. rewrite Int_part_half. reflexivity. Qed.

(** The rule of a destroy, for every asteroid and every world. *)
Lemma destroy_rule (i : nat) (a : Asteroid R) (v : World R) :
  let now := dateSeq v (datePos v) in
  let v' := destroyAsteroid i a v in
  (now - lastDestroyTime (state v) < 2000 ->
     combo (state v') = Rmin 10 (combo (state v) + 1))
  /\ (2000 <= now - lastDestroyTime (state v) -> combo (state v') = 1)
  /\ lastDestroyTime (state v') = now
  /\ score (state v')
     = score (state v)
       + IZR (Int_part (10 * combo (state v') * (a_radius a / 30) + / 2))
  /\ dateSeq v' = dateSeq v /\ datePos v' = S (datePos v).
Proof.
  intros now v'.
  destruct (destroyAsteroid_scoring i a v) as (Hc & Hl & Hs & Hds & Hdp).
  fold v' in Hc, Hl, Hs, Hds, Hdp. fold now in Hc, Hl, Hs.
  unfold comboTimeout in Hc, Hs. cbn [Math_min Math_round R_Math] in Hc, Hs.
  rnum. repeat split.
  - intros Hlt. rewrite Hc. apply Rltb_true in Hlt. rewrite Hlt. reflexivity.
  - intros Hge. rewrite Hc. apply Rltb_false in Hge. rewrite Hge. reflexivity.
  - exact Hl.
  - rewrite Hs, Hc. reflexivity.
  - exact Hds.
  - exact Hdp.
Qed.

(** Three destroys of asteroids of radius 30, at T0, T0 + 500 and
    T0 + 3000, in a session that starts with last-destroy time 0 and
    score 0. *)
Lemma three_destroys (T0 : R) (w : World R) (a1 a2 a3 : Asteroid R)
    (i1 i2 i3 : nat) :
  2000 <= T0 ->
  lastDestroyTime (state w) = 0 -> score (state w) = 0 ->
  dateSeq w (datePos w) = T0 ->
  dateSeq w (S (datePos w)) = T0 + 500 ->
  dateSeq w (S (S (datePos w))) = T0 + 3000 ->
  a_radius a1 = 30 -> a_radius a2 = 30 -> a_radius a3 = 30 ->
  let w1 := destroyAsteroid i1 a1 w in
  let w2 := destroyAsteroid i2 a2 w1 in
  let w3 := destroyAsteroid i3 a3 w2 in
  combo (state w1) = 1 /\ score (state w1) = 10
  /\ combo (state w2) = 2 /\ score (state w2) = 30
  /\ combo (state w3) = 1 /\ score (state w3) = 40.
Proof.
  intros HT0 Hlast Hscore Hc0 Hc1 Hc2 Hr1 Hr2 Hr3 w1 w2 w3.
  destruct (destroy_rule i1 a1 w) as (_ & H1c & H1l & H1s & H1d & H1p).
  destruct (destroy_rule i2 a2 w1) as (H2c & _ & H2l & H2s & H2d & H2p).
  destruct (destroy_rule i3 a3 w2) as (_ & H3c & H3l & H3s & H3d & H3p).
  fold w1 in H1c, H1l, H1s, H1d, H1p, H2c, H2l, H2s, H2d, H2p.
  fold w2 in H2c, H2l, H2s, H2d, H2p, H3c, H3l, H3s, H3d, H3p.
  fold w3 in H3c, H3l, H3s, H3d, H3p.
  assert (E1 : combo (state w1) = 1) by (apply H1c; rewrite Hc0, Hlast; lra).
  assert (S1 : score (state w1) = 10).
  { rewrite H1s, E1, Hscore, Hr1.
    replace (10 * 1 * (30 / 30)) with (IZR 10) by lra.
    rewrite (Int_part_half 10). lra. }
  assert (E2 : combo (state w2) = 2).
  { rewrite H2c; [rewrite E1; unfold Rmin; destruct (Rle_dec 10 (1 + 1)); lra|].
    rewrite H1d, H1p, Hc1, H1l, Hc0. lra. }
  assert (S2 : score (state w2) = 30).
  { rewrite H2s, E2, S1, Hr2.
    replace (10 * 2 * (30 / 30)) with (IZR 20) by lra.
    rewrite (Int_part_half 20). lra. }
  assert (E3 : combo (state w3) = 1).
  { apply H3c. rewrite H2d, H2p, H1d, H1p, Hc2, H2l, H1d, H1p, Hc1. lra. }
  assert (S3 : score (state w3) = 40).
  { rewrite H3s, E3, S2, Hr3.
    replace (10 * 1 * (30 / 30)) with (IZR 10) by lra.
    rewrite (Int_part_half 10). lra. }
  repeat split; assumption.
Qed.

(** C3, as the code has it. The rule of a destroy, for every asteroid and
    every world: with less than 2000 ms since the last destroy the combo
    becomes [min(10, combo + 1)], otherwise 1; the last-destroy time becomes
    the clock reading; [round(10 * combo * (r / 30))] is added to the score.
    And in a session whose last-destroy time and score are as the page load
    and [startGame] leave them (both 0), three destroys of asteroids of
    radius 30 at clock readings T0, T0 + 500 and T0 + 3000 (T0 a reading of
    [Date.now()], at least 2000) give the combos 1, 2, 1 and the scores 10,
    30 and 40: the total is 10 + 20 + 10 = 40. *)
Theorem C3_combo_and_score (T0 : R) (w : World R) (a1 a2 a3 : Asteroid R)
    (i1 i2 i3 : nat) :
  2000 <= T0 ->
  lastDestroyTime (state w) = 0 -> score (state w) = 0 ->
  dateSeq w (datePos w) = T0 ->
  dateSeq w (S (datePos w)) = T0 + 500 ->
  dateSeq w (S (S (datePos w))) = T0 + 3000 ->
  a_radius a1 = 30 -> a_radius a2 = 30 -> a_radius a3 = 30 ->
  (let w1 := destroyAsteroid i1 a1 w in
   let w2 := destroyAsteroid i2 a2 w1 in
   let w3 := destroyAsteroid i3 a3 w2 in
   combo (state w1) = 1 /\ score (state w1) = 10
   /\ combo (state w2) = 2 /\ score (state w2) = 30
   /\ combo (state w3) = 1 /\ score (state w3) = 40)
  /\ (forall (i : nat) (a : Asteroid R) (v : World R),
        let now := dateSeq v (datePos v) in
        let v' := destroyAsteroid i a v in
        (now - lastDestroyTime (state v) < 2000 ->
           combo (state v') = Rmin 10 (combo (state v) + 1))
        /\ (2000 <= now - lastDestroyTime (state v) -> combo (state v') = 1)
        /\ lastDestroyTime (state v') = now
        /\ score (state v')
           = score (state v)
             + IZR (Int_part (10 * combo (state v') * (a_radius a / 30) + / 2))).
Proof.
  intros HT0 Hlast Hscore Hc0 Hc1 Hc2 Hr1 Hr2 Hr3. split.
  - apply (three_destroys T0); assumption.
  - intros i a v now v'. destruct (destroy_rule i a v) as (H1 & H2 & H3 & H4 & _).
    repeat split; assumption.
Qed.

Lemma C3_combo_and_score_witness :
  2000 <= 1700000000000
  /\ (let w := freshSession (A := R) threeDestroysClock in
      let w3 := destroyAsteroid 0 smallAsteroid
                  (destroyAsteroid 0 smallAsteroid
                     (destroyAsteroid 0 smallAsteroid w)) in
      combo (state w3) = 1 /\ score (state w3) = 40).
Proof.
  split; [lra|]. intros w w3.
  destruct (C3_combo_and_score 1700000000000 w smallAsteroid smallAsteroid
              smallAsteroid 0 0 0) as ((_ & _ & _ & _ & Hc & Hs) & _);
    try reflexivity; [lra | cbn; lra | cbn; lra |].
  split; [exact Hc | exact Hs].
Defined.

(** The claim's total of 50 is not what the three destroys give: in a fresh
    session, with the clock reading 1700000000000, 1700000000500 and
    1700000003000, the combos are 1, 2, 1 and the score is 40. *)
Lemma C3_total_is_not_50 :
  let w := freshSession (A := R) threeDestroysClock in
  let w1 := destroyAsteroid 0 smallAsteroid w in
  let w2 := destroyAsteroid 0 smallAsteroid w1 in
  let w3 := destroyAsteroid 0 smallAsteroid w2 in
  combo (state w1) = 1 /\ combo (state w2) = 2 /\ combo (state w3) = 1
  /\ score (state w3) = 40 /\ score (state w3) <> 50.
Proof.
  intros w w1 w2 w3.
  destruct (three_destroys 1700000000000 w smallAsteroid smallAsteroid
              smallAsteroid 0 0 0) as (H1 & _ & H2 & _ & H3 & Hs);
    try reflexivity; [lra | cbn; lra | cbn; lra |].
  fold w1 w2 w3 in H1, H2, H3, Hs.
  repeat split; try assumption. rewrite Hs. lra.
Qed.

(** *** Restart *)

(** C1 (the code departs from the claim). [startGame], once the webcam is
    ready, resets the session fields it lists: playing, score 0, the
    configured lives, combo 1, no asteroid, no particle, game time and
    last-spawn time 0, the cursor undetected at (0, 0), an empty trail, and
    the frame time set to the current time.  It does not reset
    [lastDestroyTime] (nor the screen shake): the value of the previous
    session stays.  So when a session is restarted 1500 ms after the last
    destroy of the previous one, the first destroy of the new session finds
    the combo window open and scores with combo 2 (20 points for a radius of
    30), where the first destroy of a session after a page load scores with
    combo 1 (10 points). *)
Theorem C1_restart_keeps_lastDestroyTime :
  (forall (perfNow : R) (w : World R),
     let w' := startGame true perfNow w in
     isPlaying (state w') = true
     /\ score (state w') = 0
     /\ lives (state w') = initialLives
     /\ combo (state w') = 1
     /\ asteroids (state w') = []
     /\ particles (state w') = []
     /\ gameTime (state w') = 0
     /\ lastSpawnTime (state w') = 0
     /\ fingerPosition (state w') = mkFinger 0 0 false
     /\ positionHistory (state w') = []
     /\ lastFrameTime w' = perfNow)
  /\ (forall (perfNow : R) (w : World R),
        lastDestroyTime (state (startGame true perfNow w))
        = lastDestroyTime (state w)
        /\ screenShake (state (startGame true perfNow w)) = screenShake (state w))
  /\ lastDestroyTime (state (startGame true 0 (endedSession (A := R))))
     = 1700000000000
  /\ combo (state (destroyAsteroid 0 smallAsteroid
                     (startGame true 0 (endedSession (A := R))))) = 2
  /\ score (state (destroyAsteroid 0 smallAsteroid
                     (startGame true 0 (endedSession (A := R))))) = 20
  /\ combo (state (destroyAsteroid 0 smallAsteroid
                     (freshSession (A := R) (fun _ => 1700000001500)))) = 1
  /\ score (state (destroyAsteroid 0 smallAsteroid
                     (freshSession (A := R) (fun _ => 1700000001500)))) = 10.
Proof.
  split; [|split; [|split]].
  - intros perfNow w. cbn. repeat split; reflexivity.
  - intros perfNow w. cbn. split; reflexivity.
  - reflexivity.
  - destruct (destroy_rule 0 smallAsteroid (startGame true 0 (endedSession (A := R))))
      as (Hin & _ & _ & Hs & _).
    destruct (destroy_rule 0 smallAsteroid (freshSession (A := R) (fun _ => 1700000001500)))
      as (_ & Hout & _ & Hs' & _).
    assert (E : combo (state (destroyAsteroid 0 smallAsteroid
                     (startGame true 0 (endedSession (A := R))))) = 2).
    { rewrite Hin by (cbn; lra). cbn. unfold Rmin.
      destruct (Rle_dec 10 (1 + 1)); lra. }
    assert (E' : combo (state (destroyAsteroid 0 smallAsteroid
                     (freshSession (A := R) (fun _ => 1700000001500)))) = 1)
      by (apply Hout; cbn; lra).
    split; [exact E|]. split; [|split; [exact E'|]].
    + rewrite Hs, E. cbn [startGame negb upd state resetGameState set_debugMode
        set_positionHistory set_fingerPosition set_lastSpawnTime set_gameTime
        set_particles set_asteroids set_combo set_lives set_score set_isPlaying
        set_lastFrameTime set_handsReady score smallAsteroid a_radius].
      rnum. replace (10 * 2 * (30 / 30)) with (IZR 20) by lra.
      rewrite (Int_part_half 20). lra.
    + rewrite Hs', E'. cbn [freshSession startGame negb upd state resetGameState
        set_debugMode set_positionHistory set_fingerPosition set_lastSpawnTime
        set_gameTime set_particles set_asteroids set_combo set_lives set_score
        set_isPlaying set_lastFrameTime set_handsReady score smallAsteroid
        a_radius].
      rnum. replace (10 * 1 * (30 / 30)) with (IZR 10) by lra.
      rewrite (Int_part_half 10). lra.
Qed.

(** *** Spawning *)

Lemma Int_part_range (x : R) (n : Z) :
  0 <= x < IZR n -> (0 <= Int_part x < n)%Z.
Proof.
  intros [Hlo Hhi]. destruct (base_Int_part x) as [Hle Hgt]. split.
  - assert (Hlt : IZR (-1) < IZR (Int_part x)) by (simpl; lra).
    apply lt_IZR in Hlt. lia.
  - apply lt_IZR. lra.
Qed.

Lemma shapedIn_ranges (w : World R) (vs : list (Vertex R)) :
  (forall k, 0 <= randomSeq w k < 1) ->
  shapedIn w vs ->
  (8 <= length vs < 13)%nat
  /\ Forall (fun v => 7 / 10 <= v_radius v < 1) vs.
Proof.
  intros Hrand [(r & (k & ->) & Hlen) Hall]. split.
  - rewrite Hlen. cbn [Math_floor R_Math]. rnum.
    pose proof (Hrand k) as Hk.
    assert (Hip : (0 <= Int_part (randomSeq w k * 5) < 5)%Z)
      by (apply Int_part_range; lra).
    lia.
  - eapply List.Forall_impl; [|exact Hall].
    intros v (r' & (k' & ->) & Hv). rewrite Hv. unfold frac. rnum.
    pose proof (Hrand k'). lra.
Qed.

(** C6, as the code has it. With [Math.random()] in [[0, 1)], the asteroid
    [spawnAsteroid] appends has a radius in [[30, 60]], between 8 and 12
    vertices, each with a radial factor in [[0.7, 1)], a rotation speed in
    [[-0.025, 0.025)] and a hue in [[20, 40]]; the asteroids already there
    are left as they are.  And the polygon is never changed afterwards:
    every asteroid [updateAsteroids] leaves is one of the asteroids it
    found, moved, with the same vertices; [updateParticles] and
    [createExplosion] leave the asteroids alone. *)
Theorem C6_spawn_ranges_and_shape (w : World R) :
  (forall k, 0 <= randomSeq w k < 1) ->
  (exists a,
     asteroids (state (spawnAsteroid w)) = asteroids (state w) ++ [a]
     /\ 30 <= a_radius a <= 60
     /\ (8 <= length (vertices a) < 13)%nat
     /\ Forall (fun v => 7 / 10 <= v_radius v < 1) (vertices a)
     /\ - (25 / 1000) <= rotationSpeed a < 25 / 1000
     /\ 20 <= a_hue a <= 40)
  /\ (forall (deltaTime : R) (v : World R),
        exists v', updateAsteroids deltaTime v = Some v'
          /\ Forall (fun a' => exists a, In a (asteroids (state v))
                                 /\ a' = moveAsteroid a
                                 /\ vertices a' = vertices a)
               (asteroids (state v')))
  /\ (forall v : World R,
        exists v', updateParticles v = Some v'
                   /\ asteroids (state v') = asteroids (state v))
  /\ (forall (x y size : R) (v : World R),
        asteroids (state (createExplosion x y size v)) = asteroids (state v)).
Proof.
  intros Hrand. split; [|split; [|split]].
  - destruct (spawnAsteroid_spec w) as (a & k & -> & Ha).
    exists a. split; [reflexivity|].
    destruct Ha as (r3 & r4 & r6 & r7 & dx & dy & _ & (k4 & ->) & (k6 & ->)
                    & (k7 & ->) & _ & Hr & Hrs & Hh & Hshape).
    destruct (shapedIn_ranges w (vertices a) Hrand Hshape) as [Hlen Hfac].
    rewrite Hr, Hrs, Hh. unfold frac. rnum.
    pose proof (Hrand k4). pose proof (Hrand k6). pose proof (Hrand k7).
    repeat split; try lra; try lia. exact Hfac.
  - intros deltaTime v.
    destruct (updateAsteroids_spec deltaTime v) as (v' & Hrun & Has & _).
    exists v'. split; [exact Hrun|]. cbv zeta in Has. rewrite Has.
    apply List.Forall_forall. intros a' Hin.
    apply In_remaining in Hin. destruct Hin as [Hin _].
    apply List.in_map_iff in Hin. destruct Hin as (a & <- & Hin).
    exists a. split; [exact Hin|]. split; reflexivity.
  - intros v. eexists. split; [apply updateParticles_spec | reflexivity].
  - intros x y size v.
    destruct (createExplosion_frame x y size v) as (ps & k & ->). reflexivity.
Qed.

Lemma C6_spawn_ranges_and_shape_witness :
  (forall k, 0 <= randomSeq (freshSession (A := R) threeDestroysClock) k < 1)
  /\ exists a,
       asteroids (state (spawnAsteroid (freshSession (A := R) threeDestroysClock)))
       = [a]
       /\ 30 <= a_radius a <= 60
       /\ (8 <= length (vertices a) < 13)%nat.
Proof.
  assert (Hrand : forall k,
             0 <= randomSeq (freshSession (A := R) threeDestroysClock) k < 1)
    by (intros k; cbn; lra).
  split; [exact Hrand|].
  destruct (C6_spawn_ranges_and_shape _ Hrand)
    as ((a & Has & Hr & Hn & _) & _).
  exists a. split; [exact Has|]. split; [exact Hr | exact Hn].
Defined.

(** The half-open bounds of the claim fail in binary64, the arithmetic of
    the engine: when [Math.random()] returns the largest double below 1,
    [30 + u * 30] rounds to 60 and [20 + u * 20] rounds to 40, so the
    asteroid spawned has radius 60 and hue 40, neither strictly below its
    bound.  (Whatever the engine's cosine and sine: [spawnAsteroid] does
    not call them.) *)
Lemma C6_radius_reaches_60 :
  PrimFloat.leb (Z2F 0) largestDraw = true
  /\ PrimFloat.ltb largestDraw (Z2F 1) = true
  /\ forall engine_cos engine_sin,
       exists a,
         asteroids (state (@spawnAsteroid _ F64_Number
                             (F64_Math engine_cos engine_sin)
                             (sessionDrawing largestDraw))) = [a]
         /\ a_radius a = Z2F 60
         /\ PrimFloat.ltb (a_radius a) (Z2F 60) = false
         /\ a_hue a = Z2F 40
         /\ PrimFloat.ltb (a_hue a) (Z2F 40) = false.
Proof.
  split; [vm_compute; reflexivity|]. split; [vm_compute; reflexivity|].
  intros engine_cos engine_sin. vm_compute. eexists.
  split; [reflexivity|]. cbn [a_radius a_hue]. repeat split; reflexivity.
Qed.

(** The other upper bounds stay strict in binary64 at the largest draw
    (12 vertices, radial factors and rotation speed below 1 and 0.025), and
    at the draw 0 every lower bound is met with equality (radius 30, 8
    vertices, factor 0.7, rotation speed -0.025, hue 20). *)
Lemma binary64_spawn_extremes :
  forall engine_cos engine_sin,
    List.map (fun a =>
                (length (vertices a),
                 forallb (fun v => PrimFloat.ltb (v_radius v) (Z2F 1)) (vertices a),
                 PrimFloat.ltb (rotationSpeed a) (frac 25 1000)))
      (asteroids (state (@spawnAsteroid _ F64_Number
                           (F64_Math engine_cos engine_sin)
                           (sessionDrawing largestDraw))))
    = [(12%nat, true, true)]
    /\ List.map (fun a =>
                   (a_radius a, length (vertices a),
                    forallb (fun v => PrimFloat.eqb (v_radius v) (frac 7 10))
                      (vertices a),
                    PrimFloat.eqb (rotationSpeed a) (frac (-25) 1000),
                    a_hue a))
         (asteroids (state (@spawnAsteroid _ F64_Number
                              (F64_Math engine_cos engine_sin)
                              (sessionDrawing (Z2F 0)))))
       = [(Z2F 30, 8%nat, true, true, Z2F 20)].
Proof. intros engine_cos engine_sin. vm_compute. split; reflexivity. Qed.

(** *** Difficulty *)










(** *** The cursor *)

(** C9. For a hand whose index fingertip (landmark 8) is at [(u, v)], the
    target is [((1 - u) * canvasWidth, v * canvasHeight)]; the cursor is
    then detected; if it was detected before, each coordinate moves from
    [pos] to [pos + 0.3 * (target - pos)], otherwise the cursor is put on
    the target. *)
Theorem C9_cursor_mapping (w : World R) (landmarks : list (Landmark R))
    (others : list (list (Landmark R))) (u v : R) :
  (21 <= length landmarks)%nat ->
  landmarks !! 8%nat = Some (mkLandmark u v) ->
  exists w',
    onHandResults (Some (landmarks :: others)) w = Some w'
    /\ detected (fingerPosition (state w')) = true
    /\ (detected (fingerPosition (state w)) = true ->
          fp_x (fingerPosition (state w'))
          = fp_x (fingerPosition (state w))
            + 3 / 10 * ((1 - u) * canvasWidth w - fp_x (fingerPosition (state w)))
          /\ fp_y (fingerPosition (state w'))
             = fp_y (fingerPosition (state w))
               + 3 / 10 * (v * canvasHeight w - fp_y (fingerPosition (state w))))
    /\ (detected (fingerPosition (state w)) = false ->
          fp_x (fingerPosition (state w')) = (1 - u) * canvasWidth w
          /\ fp_y (fingerPosition (state w')) = v * canvasHeight w).
Proof.
  intros Hlen H8. unfold onHandResults.
  assert (Hl : (length landmarks <? 21)%nat = false) by (apply Nat.ltb_ge; exact Hlen).
  rewrite Hl, H8. eexists. split; [reflexivity|].
  cbn [upd state set_positionHistory set_fingerPosition fingerPosition lm_x lm_y].
  destruct (detected (fingerPosition (state w))).
  - cbn [detected fp_x fp_y]. unfold lerp, fingerSmoothing, frac. rnum.
    split; [reflexivity|]. split; [intros _; split; lra | discriminate].
  - cbn [detected fp_x fp_y]. rnum.
    split; [reflexivity|]. split; [discriminate | intros _; split; reflexivity].
Qed.

Lemma C9_cursor_mapping_witness :
  (21 <= length (sampleHand (A := R)))%nat
  /\ sampleHand (A := R) !! 8%nat = Some (mkLandmark (1 / 4) (1 / 2))
  /\ exists w',
       onHandResults (Some [sampleHand])
         (freshSession (A := R) threeDestroysClock) = Some w'
       /\ fp_x (fingerPosition (state w')) = (1 - 1 / 4) * 800
       /\ fp_y (fingerPosition (state w')) = 1 / 2 * 600.
Proof.
  assert (Hlen : (21 <= length (sampleHand (A := R)))%nat) by (cbn; lia).
  assert (H8 : sampleHand (A := R) !! 8%nat
               = Some (mkLandmark (1 / 4) (1 / 2))) by reflexivity.
  split; [exact Hlen|]. split; [exact H8|].
  destruct (C9_cursor_mapping (freshSession (A := R) threeDestroysClock)
              sampleHand [] (1 / 4) (1 / 2) Hlen H8)
    as (w' & Hrun & _ & _ & Hfresh).
  exists w'. split; [exact Hrun|]. apply Hfresh. reflexivity.
Defined.

(** *** High score *)

Lemma gameOver_highScore (w : World R) :
  (highScore (state w) < score (state w) ->
     highScore (state (gameOver w)) = score (state w)
     /\ storedHighScore (gameOver w) = Some (score (state w)))
  /\ (score (state w) <= highScore (state w) ->
        highScore (state (gameOver w)) = highScore (state w)
        /\ storedHighScore (gameOver w) = storedHighScore w).
Proof.
  split.
  - intros Hlt. rewrite gameOver_new_high by (apply Rltb_true; exact Hlt).
    split; reflexivity.
  - intros Hle. rewrite gameOver_no_high by (apply Rltb_false; exact Hle).
    split; reflexivity.
Qed.

Lemma gameOver_above (h : R) (w : World R) :
  highScoreAbove h w -> highScoreAbove h (gameOver w).
Proof.
  intros [Hh Hp]. destruct (gameOver_highScore w) as [Hnew Hold].
  destruct (Rlt_dec (highScore (state w)) (score (state w))) as [Hlt|Hge].
  - destruct (Hnew Hlt) as [Hs Hst]. unfold highScoreAbove, persisted.
    rewrite Hs, Hst. split; [lra | reflexivity].
  - destruct (Hold ltac:(lra)) as [Hs Hst]. unfold highScoreAbove, persisted.
    rewrite Hs, Hst. split; [exact Hh | exact Hp].
Qed.

Lemma loseLife_above (h : R) (w : World R) :
  highScoreAbove h w -> highScoreAbove h (loseLife w).
Proof.
  intros Hw. unfold loseLife.
  destruct (n_leb _ _); [apply gameOver_above|]; exact Hw.
Qed.

Lemma updateAsteroids_above (h deltaTime : R) (w w' : World R) :
  highScoreAbove h w -> updateAsteroids deltaTime w = Some w' ->
  highScoreAbove h w'.
Proof.
  unfold updateAsteroids.
  apply (updateAsteroidsFrom_preserves (highScoreAbove h)).
  - intros i a v Hv. exact Hv.
  - intros i a v [Hh Hp]. unfold highScoreAbove, persisted.
    destruct (destroyAsteroid_highScore i a v) as [-> ->]. split; assumption.
  - intros i a v Hv. unfold impactAsteroid.
    match goal with |- context [loseLife ?x] =>
      pose proof (loseLife_above h x Hv) as Hl end.
    exact Hl.
Qed.

(** [gameLoop] never fails. *)
Lemma gameLoop_total (currentTime : R) (w : World R) :
  exists w', gameLoop currentTime w = Some w'.
Proof.
  unfold gameLoop. destruct (negb (isPlaying (state w))); [eexists; reflexivity|].
  match goal with |- context [updateAsteroids ?d ?v] =>
    destruct (updateAsteroids_spec d v) as (w4 & -> & _) end.
  rewrite updateParticles_spec. eexists. reflexivity.
Qed.

Lemma gameLoop_above (h currentTime : R) (w w' : World R) :
  highScoreAbove h w -> gameLoop currentTime w = Some w' -> highScoreAbove h w'.
Proof.
  intros Hw. unfold gameLoop.
  destruct (negb (isPlaying (state w))); [intros [= <-]; exact Hw|].
  match goal with |- context [updateAsteroids ?d ?v] =>
    assert (H3 : highScoreAbove h v);
    [| destruct (updateAsteroids d v) as [w4|] eqn:Hua; [|discriminate];
       pose proof (updateAsteroids_above h d v w4 H3 Hua) as H4 ]
  end.
  { destruct (n_ltb _ _); [|exact Hw].
    match goal with |- context [spawnAsteroid ?v] =>
      destruct (spawnAsteroid_spec v) as (a & k & -> & _) end.
    exact Hw. }
  rewrite updateParticles_spec. intros [= <-].
  unfold checkComboTimeout, render. cbn [Date_now].
  repeat match goal with
  | |- context [if ?c then _ else _] => destruct c
  end; exact H4.
Qed.

Lemma act_above (h : R) (a : Action R) (w : World R) :
  highScoreAbove h w -> highScoreAbove h (act a w).
Proof.
  intros Hw. destruct a as [ready t | t | hands]; cbn [act].
  - unfold startGame. destruct (negb ready); exact Hw.
  - destruct (gameLoop t w) as [w'|] eqn:Hg; [|exact Hw].
    eapply gameLoop_above; eassumption.
  - unfold onHandResults.
    destruct hands as [[|landmarks others]|].
    + cbv beta iota. destruct (debugMode _); exact Hw.
    + destruct (length landmarks <? 21)%nat; [exact Hw|].
      destruct (landmarks !! 8%nat); exact Hw.
    + cbv beta iota. destruct (debugMode _); exact Hw.
Qed.

Lemma run_above (h : R) (acts : list (Action R)) (w : World R) :
  highScoreAbove h w -> highScoreAbove h (run acts w).
Proof.
  revert w. induction acts as [|a acts IH]; intros w Hw; [exact Hw|].
  cbn [run List.fold_left]. apply IH, act_above, Hw.
Qed.

Lemma gameOverWith_low (s : R) (w : World R) :
  s <= highScore (state w) ->
  highScore (state (gameOverWith s w)) = highScore (state w)
  /\ storedHighScore (gameOverWith s w) = storedHighScore w.
Proof.
  intros Hle. unfold gameOverWith.
  destruct (gameOver_highScore (upd (set_score s) w)) as [_ Hold].
  apply Hold. exact Hle.
Qed.

(** C5. In a world where the stored high score is the one in [state] (as
    it is after a page load): [gameOver] with a score strictly above the
    high score makes that score the high score and stores it; with a score
    at or below it, it leaves the high score and the stored entry as they
    are.  Whatever the browser calls afterwards (restarts, frames with their
    game overs, tracker results), the stored high score never decreases and
    stays the one in [state].  Game overs repeated with scores at or below
    the high score, however many, change neither. *)
Theorem C5_high_score (w : World R) :
  persisted w = highScore (state w) ->
  (highScore (state w) < score (state w) ->
     highScore (state (gameOver w)) = score (state w)
     /\ persisted (gameOver w) = score (state w))
  /\ (score (state w) <= highScore (state w) ->
        highScore (state (gameOver w)) = highScore (state w)
        /\ storedHighScore (gameOver w) = storedHighScore w)
  /\ (forall acts : list (Action R),
        persisted w <= persisted (run acts w)
        /\ persisted (run acts w) = highScore (state (run acts w)))
  /\ (forall scores : list R,
        Forall (fun s => s <= highScore (state w)) scores ->
        let w' := List.fold_left (fun v s => gameOverWith s v) scores w in
        highScore (state w') = highScore (state w)
        /\ storedHighScore w' = storedHighScore w).
Proof.
  intros Hp. split; [|split; [|split]].
  - intros Hlt. destruct (gameOver_highScore w) as [Hnew _].
    destruct (Hnew Hlt) as [Hs Hst]. split; [exact Hs|].
    unfold persisted. rewrite Hst. reflexivity.
  - apply gameOver_highScore.
  - intros acts.
    destruct (run_above (highScore (state w)) acts w) as [Hh Hq].
    { split; [lra | exact Hp]. }
    split; [rewrite Hq, Hp; exact Hh | exact Hq].
  - intros scores. revert w Hp.
    induction scores as [|s scores IH]; intros w Hp Hall w';
      [split; reflexivity|].
    inversion Hall as [|? ? Hs Hrest]; subst.
    destruct (gameOverWith_low s w Hs) as [Hh Hst].
    subst w'. cbn [List.fold_left].
    destruct (IH (gameOverWith s w)) as [Hh' Hst'].
    + unfold persisted. rewrite Hst, Hh. exact Hp.
    + rewrite Hh. exact Hrest.
    + rewrite Hh', Hst'. split; assumption.
Qed.

Lemma C5_high_score_witness :
  persisted (lastLifeWorld (A := R) []) = highScore (state (lastLifeWorld (A := R) []))
  /\ highScore (state (gameOver (lastLifeWorld (A := R) []))) = 120
  /\ persisted (gameOver (lastLifeWorld (A := R) [])) = 120.
Proof.
  assert (Hp : persisted (lastLifeWorld (A := R) [])
               = highScore (state (lastLifeWorld (A := R) []))) by reflexivity.
  split; [exact Hp|].
  destruct (C5_high_score (lastLifeWorld []) Hp) as (Hnew & _).
  apply Hnew. cbn. lra.
Defined.

(** ** Further laws of the exact arithmetic *)

(** *** The cursor closes in *)




(** *** The polygon *)

Lemma lookup_map_seq {B : Type} (f : nat -> B) (n i : nat) (b : B) :
  List.map f (List.seq 0 n) !! i = Some b -> (i < n)%nat /\ b = f i.
Proof.
  intros Hi.
  assert (Hgen : forall s m j, List.map f (List.seq s m) !! j = Some b ->
                   (j < m)%nat /\ b = f (s + j)%nat).
  { intros s m. revert s. induction m as [|m IH]; intros s j Hj.
    - destruct j; discriminate.
    - destruct j as [|j]; cbn in Hj.
      + injection Hj as <-. rewrite Nat.add_0_r. split; [lia | reflexivity].
      + destruct (IH (S s) j Hj) as [Hlt ->]. split; [lia|].
        f_equal. lia. }
  destruct (Hgen 0%nat n i Hi) as [Hlt ->]. split; [exact Hlt | reflexivity].
Qed.

(** X6. The polygon [generateAsteroidShape] returns, with [Math.random()] in
    [[0, 1)]: 8 to 12 vertices; the vertex at index [i] of [n] is at the
    angle [i / n * 2 pi], so the angles start at 0, grow with the index and
    stay below a full turn; its radial factor comes from the draw after the
    one before it; and the function has drawn [1 + n] numbers. *)
Theorem generateAsteroidShape_polygon (w : World R) :
  (forall k, 0 <= randomSeq w k < 1) ->
  let vs := fst (generateAsteroidShape w) in
  let n := length vs in
  (8 <= n <= 12)%nat
  /\ randomPos (snd (generateAsteroidShape w)) = (randomPos w + 1 + n)%nat
  /\ (forall i v, vs !! i = Some v ->
        angle v = INR i / INR n * PI * 2
        /\ 0 <= angle v < 2 * PI
        /\ v_radius v = 7 / 10 + randomSeq w (randomPos w + 1 + i) * (3 / 10))
  /\ (forall i j v v', vs !! i = Some v -> vs !! j = Some v' ->
        (i < j)%nat -> angle v < angle v').
Proof.
  intros Hrand. cbv zeta. rewrite (generateAsteroidShape_exact w).
  cbv zeta. cbn [fst snd set_randomPos randomPos].
  rewrite List.length_map, List.length_seq.
  cbn [Math_floor R_Math]. rnum.
  set (k := Int_part (randomSeq w (randomPos w) * 5)).
  assert (Hk : (0 <= k < 5)%Z).
  { apply Int_part_range. pose proof (Hrand (randomPos w)). lra. }
  set (n := Z.to_nat (8 + k)).
  assert (Hn : (8 <= n <= 12)%nat) by (subst n; lia).
  assert (HnR : IZR (8 + k) = INR n).
  { subst n. rewrite INR_IZR_INZ, Z2Nat.id by lia. reflexivity. }
  assert (Hnpos : 0 < INR n) by (apply lt_0_INR; lia).
  assert (Hangle : forall i v,
            List.map (fun j => vertexAt (8 + k) (Z.of_nat j)
                                 (randomSeq w (randomPos w + 1 + j)))
              (List.seq 0 n) !! i = Some v ->
            (i < n)%nat /\ angle v = INR i / INR n * PI * 2
            /\ v_radius v = 7 / 10 + randomSeq w (randomPos w + 1 + i) * (3 / 10)).
  { intros i v Hi. apply lookup_map_seq in Hi. destruct Hi as [Hlt ->].
    split; [exact Hlt|]. unfold vertexAt, frac. cbn [angle v_radius]. rnum.
    rewrite HnR, <- INR_IZR_INZ. split; reflexivity. }
  split; [exact Hn|]. split; [reflexivity|]. split.
  - intros i v Hi. destruct (Hangle i v Hi) as (Hlt & Ha & Hr).
    split; [exact Ha|]. split; [|exact Hr].
    rewrite Ha. pose proof PI_RGT_0 as Hpi.
    assert (Hi0 : 0 <= INR i) by apply pos_INR.
    assert (Hin : INR i < INR n) by (apply lt_INR; exact Hlt).
    assert (Hq : 0 <= INR i / INR n < 1).
    { split.
      - apply Rmult_le_pos; [exact Hi0 | left; apply Rinv_0_lt_compat; exact Hnpos].
      - apply (Rmult_lt_reg_r (INR n)); [exact Hnpos|].
        unfold Rdiv. rewrite Rmult_assoc, Rinv_l by lra. lra. }
    split; nra.
  - intros i j v v' Hi Hj Hij.
    destruct (Hangle i v Hi) as (_ & -> & _).
    destruct (Hangle j v' Hj) as (_ & -> & _).
    pose proof PI_RGT_0 as Hpi.
    assert (Hlt : INR i < INR j) by (apply lt_INR; exact Hij).
    assert (Hq : INR i / INR n < INR j / INR n).
    { unfold Rdiv. apply Rmult_lt_compat_r; [apply Rinv_0_lt_compat; exact Hnpos | exact Hlt]. }
    nra.
Qed.

Lemma generateAsteroidShape_polygon_witness :
  (forall k, 0 <= randomSeq (sessionDrawing (A := R) 0) k < 1)
  /\ (8 <= length (fst (generateAsteroidShape (sessionDrawing (A := R) 0%R)))
      <= 12)%nat.
Proof.
  assert (Hrand : forall k, 0 <= randomSeq (sessionDrawing (A := R) 0) k < 1)
    by (intros k; cbn; lra).
  split; [exact Hrand|].
  destruct (generateAsteroidShape_polygon (sessionDrawing 0) Hrand) as (Hn & _).
  exact Hn.
Defined.

(** *** The centre zone *)

Lemma livesAfter_count (l0 : R) (es : list (Event R)) :
  livesAfter l0 es = l0 - INR (length (List.filter isImpact es)).
Proof.
  revert l0. induction es as [|e es IH]; intros l0.
  - cbn. lra.
  - unfold livesAfter. cbn [List.fold_left List.filter].
    fold (livesAfter (if isImpact e then n_sub l0 (ofZ 1) else l0) es).
    rewrite IH. destruct (isImpact e).
    + cbn [length]. rewrite S_INR. rnum. lra.
    + reflexivity.
Qed.

(** X4. The centre zone.  In a call of [updateAsteroids], an asteroid of the
    array hits the centre (the centre branch is taken for it, after it has
    been moved) exactly when the cursor branch is not taken for it and its
    Euclidean distance to the centre of the canvas is strictly less than
    50: the cursor comes first.  An asteroid that hits the centre is no
    longer in the array, each one costs a life, and the asteroids left are
    exactly the moved asteroids for which neither branch was taken. *)
Theorem centre_impact_rule (deltaTime : R) (w : World R) :
  let fp := fingerPosition (state w) in
  let cursorHit (a : Asteroid R) :=
    detected fp = true
    /\ sqrt ((a_x a - fp_x fp) * (a_x a - fp_x fp)
             + (a_y a - fp_y fp) * (a_y a - fp_y fp)) < a_radius a + 60 in
  let centreDist (a : Asteroid R) :=
    sqrt ((a_x a - canvasWidth w / 2) * (a_x a - canvasWidth w / 2)
          + (a_y a - canvasHeight w / 2) * (a_y a - canvasHeight w / 2)) in
  exists w' es,
    updateAsteroids deltaTime w = Some w'
    /\ history w' = history w ++ es
    /\ (forall a, In a (asteroids (state w)) ->
          (In (EvImpact (moveAsteroid a)) es
           <-> ~ cursorHit (moveAsteroid a) /\ centreDist (moveAsteroid a) < 50))
    /\ (forall a', In (EvImpact a') es ->
          (exists a, In a (asteroids (state w)) /\ a' = moveAsteroid a)
          /\ ~ In a' (asteroids (state w')))
    /\ lives (state w') = lives (state w) - INR (length (List.filter isImpact es))
    /\ (forall a', In a' (asteroids (state w'))
          <-> (exists a, In a (asteroids (state w)) /\ a' = moveAsteroid a)
              /\ ~ cursorHit a' /\ 50 <= centreDist a').
Proof.
  cbv zeta.
  destruct (updateAsteroids_spec deltaTime w) as (w' & Hrun & Has & Hh & _ & Hl).
  cbv zeta in Has, Hh, Hl. eexists w', _.
  split; [exact Hrun|]. split; [exact Hh|].
  assert (Hnot : forall a : Asteroid R,
            hitsCursor (fingerPosition (state w)) a = false
            <-> ~ (detected (fingerPosition (state w)) = true
                   /\ sqrt ((a_x a - fp_x (fingerPosition (state w)))
                            * (a_x a - fp_x (fingerPosition (state w)))
                            + (a_y a - fp_y (fingerPosition (state w)))
                              * (a_y a - fp_y (fingerPosition (state w))))
                      < a_radius a + 60)).
  { intros a. rewrite <- hitsCursor_true.
    destruct (hitsCursor (fingerPosition (state w)) a); split; intros Hx;
      try reflexivity; try discriminate; try (intros Hy; discriminate).
    exfalso. apply Hx. reflexivity. }
  assert (Hfar : forall a : Asteroid R,
            reachesCenter (n_div (canvasWidth w) (ofZ 2))
              (n_div (canvasHeight w) (ofZ 2)) a = false
            <-> 50 <= sqrt ((a_x a - canvasWidth w / 2) * (a_x a - canvasWidth w / 2)
                            + (a_y a - canvasHeight w / 2)
                              * (a_y a - canvasHeight w / 2))).
  { intros a. unfold reachesCenter. cbn [Math_sqrt Math_pow2 R_Math]. rnum.
    apply Rltb_false. }
  split; [|split; [|split]].
  - intros a Hin. rewrite In_removals_impact, reachesCenter_true, Hnot. rnum.
    split; [tauto|]. intros Hc. split; [|exact Hc].
    apply List.in_map. exact Hin.
  - intros a' Hi. apply In_removals_impact in Hi. destruct Hi as (Hin & Hno & Hc).
    split.
    + apply List.in_map_iff in Hin. destruct Hin as (a & <- & Hin).
      exists a. split; [exact Hin | reflexivity].
    + rewrite Has, In_remaining. intros (_ & _ & Hfalse). congruence.
  - rewrite Hl. apply livesAfter_count.
  - intros a'. rewrite Has, In_remaining, Hnot, Hfar, List.in_map_iff.
    split.
    + intros ((a & <- & Hin) & Hc & Hd). split; [|split; assumption].
      exists a. split; [exact Hin | reflexivity].
    + intros ((a & Hin & ->) & Hc & Hd). split; [|split; assumption].
      exists a. split; [reflexivity | exact Hin].
Qed.

(** *** Explosions *)

Lemma explodedIn_ranges (w : World R) (x y : R) (p : Particle R) :
  (forall k, 0 <= randomSeq w k < 1) ->
  explodedIn w x y p ->
  p_x p = x /\ p_y p = y /\ life p = 1
  /\ 3 <= p_radius p <= 8
  /\ 2 / 100 <= decay p <= 4 / 100
  /\ 10 <= p_hue p <= 70
  /\ 2 <= sqrt (p_vx p * p_vx p + p_vy p * p_vy p) <= 7.
Proof.
  intros Hrand (r0 & r1 & r2 & r3 & r4 & _ & (k1 & ->) & (k2 & ->) & (k3 & ->)
                & (k4 & ->) & ->).
  cbn [p_x p_y life p_radius decay p_hue p_vx p_vy Math_cos Math_sin Math_PI
         R_Math]. unfold frac. rnum.
  pose proof (Hrand k1). pose proof (Hrand k2). pose proof (Hrand k3).
  pose proof (Hrand k4).
  split; [reflexivity|]. split; [reflexivity|]. split; [reflexivity|].
  split; [lra|]. split; [lra|]. split; [lra|].
  set (a := r0 * PI * 2). set (s := 2 + randomSeq w k1 * 5).
  replace (cos a * s * (cos a * s) + sin a * s * (sin a * s))
    with (s * s * (Rsqr (sin a) + Rsqr (cos a))) by (unfold Rsqr; ring).
  rewrite sin2_cos2, Rmult_1_r, sqrt_square by (subst s; lra).
  subst s. lra.
Qed.



(** *** Ranges *)

Lemma round_nonneg (x : R) : 0 <= x -> 0 <= Math_round x.
Proof.
  intros Hx. cbn [Math_round R_Math].
  destruct (base_Int_part (x + / 2)) as [_ Hgt].
  assert (Hlt : IZR (-1) < IZR (Int_part (x + / 2))) by (simpl; lra).
  apply lt_IZR in Hlt. apply IZR_le. lia.
Qed.

Lemma sessionRanges_fields (w w' : World R) :
  randomSeq w' = randomSeq w ->
  combo (state w') = combo (state w) ->
  score (state w') = score (state w) ->
  asteroids (state w') = asteroids (state w) ->
  particles (state w') = particles (state w) ->
  sessionRanges w -> sessionRanges w'.
Proof.
  unfold sessionRanges. intros -> -> -> -> ->. tauto.
Qed.

Lemma loseLife_keeps (w : World R) :
  randomSeq (loseLife w) = randomSeq w
  /\ combo (state (loseLife w)) = combo (state w)
  /\ score (state (loseLife w)) = score (state w)
  /\ particles (state (loseLife w)) = particles (state w).
Proof.
  unfold loseLife, gameOver.
  cbn [upd state set_lives lives].
  destruct (n_leb _ _); [|repeat split; reflexivity].
  cbn [upd state set_isPlaying score highScore].
  destruct (n_ltb _ _); repeat split; reflexivity.
Qed.

Lemma survivors_in_range (ps : list (Particle R)) :
  Forall particleInRange ps -> Forall particleInRange (survivors ps).
Proof.
  intros Hall. apply List.Forall_forall. intros q Hq.
  unfold survivors in Hq. apply List.filter_In in Hq. destruct Hq as [Hin Halive].
  apply List.in_map_iff in Hin. destruct Hin as (p & <- & Hin).
  rewrite List.Forall_forall in Hall. destruct (Hall p Hin) as (Hl & Hr & Hd).
  apply negb_true_iff, isDead_false in Halive. destruct Halive as [Hl' Hr'].
  unfold particleInRange. revert Hl' Hr'.
  unfold stepParticle, frac. cbn [life p_radius decay]. rnum. intros Hl' Hr'.
  repeat split; lra.
Qed.

Lemma destroyAsteroid_ranges (i : nat) (a : Asteroid R) (w : World R) :
  sessionRanges w -> 0 <= a_radius a ->
  sessionRanges (destroyAsteroid i a w)
  /\ score (state w) <= score (state (destroyAsteroid i a w)).
Proof.
  intros (Hrand & Hc & Hs & Has & Hps) Hr.
  destruct (destroyAsteroid_frame i a w) as (Ha & _).
  destruct (destroyAsteroid_scoring i a w) as (Hcombo & _ & Hscore & _).
  cbv zeta in Hcombo, Hscore.
  set (c' := if n_ltb (n_sub (dateSeq w (datePos w)) (lastDestroyTime (state w)))
                  comboTimeout
             then Math_min (ofZ 10) (n_add (combo (state w)) (ofZ 1))
             else ofZ 1) in *.
  assert (Hc' : 1 <= c' <= 10).
  { subst c'. destruct (n_ltb _ _); cbn [Math_min R_Math]; rnum; [|lra].
    split; [apply Rmin_glb; lra | apply Rmin_l]. }
  assert (Hpts : 0 <= Math_round (n_mul (n_mul (ofZ 10) c') (n_div (a_radius a) (ofZ 30)))).
  { apply round_nonneg. rnum. apply Rmult_le_pos; [lra|].
    unfold Rdiv. apply Rmult_le_pos; lra. }
  assert (Hrs : randomSeq (destroyAsteroid i a w) = randomSeq w
                /\ exists ps, particles (state (destroyAsteroid i a w))
                              = particles (state w) ++ ps
                              /\ Forall (explodedIn w (a_x a) (a_y a)) ps).
  { unfold destroyAsteroid.
    destruct (explosionLoop_particles
                (Z.to_nat (Math_floor (n_mul particleCount
                                         (n_div (a_radius a) (ofZ 30)))))
                (a_x a) (a_y a) w) as (ps & k & Hex & _ & Hall).
    unfold createExplosion. rewrite Hex. split; [reflexivity|].
    exists ps. split; [reflexivity | exact Hall]. }
  destruct Hrs as (Hseq & ps & Hparts & Hall).
  split.
  - unfold sessionRanges. rewrite Hseq, Hcombo, Hscore, Ha, Hparts. rnum.
    split; [exact Hrand|]. split; [exact Hc'|]. split; [lra|].
    split; [apply Forall_delete; exact Has|].
    apply List.Forall_app. split; [exact Hps|].
    eapply List.Forall_impl; [|exact Hall].
    intros p Hp. destruct (explodedIn_ranges w _ _ p Hrand Hp)
      as (_ & _ & Hl & Hrad & Hd & _).
    unfold particleInRange. rewrite Hl. repeat split; lra.
  - rewrite Hscore. rnum. lra.
Qed.

Lemma impactAsteroid_ranges (i : nat) (a : Asteroid R) (w : World R) :
  sessionRanges w ->
  sessionRanges (impactAsteroid i a w)
  /\ score (state (impactAsteroid i a w)) = score (state w).
Proof.
  intros (Hrand & Hc & Hs & Has & Hps).
  destruct (impactAsteroid_frame i a w) as (Ha & _).
  assert (Hk : randomSeq (impactAsteroid i a w) = randomSeq w
               /\ combo (state (impactAsteroid i a w)) = combo (state w)
               /\ score (state (impactAsteroid i a w)) = score (state w)
               /\ particles (state (impactAsteroid i a w)) = particles (state w)).
  { unfold impactAsteroid.
    cbn [upd state set_intensity randomSeq combo score particles].
    match goal with |- context [loseLife ?v] =>
      destruct (loseLife_keeps v) as (-> & -> & -> & ->) end.
    repeat split; reflexivity. }
  destruct Hk as (Hseq & Hcombo & Hscore & Hparts).
  split; [|exact Hscore].
  unfold sessionRanges. rewrite Hseq, Hcombo, Hscore, Ha, Hparts.
  split; [exact Hrand|]. split; [exact Hc|]. split; [exact Hs|].
  split; [apply Forall_delete; exact Has | exact Hps].
Qed.

Lemma spawnAsteroid_ranges (w : World R) :
  sessionRanges w -> sessionRanges (spawnAsteroid w).
Proof.
  intros (Hrand & Hc & Hs & Has & Hps).
  destruct (spawnAsteroid_anatomy w)
    as (a & k & r0 & rp & r1 & r2 & r3 & r4 & r6 & r7 & -> & _ & _ & Hr & _
        & _ & _ & _ & _ & _ & _ & _ & (k4 & ->) & _).
  unfold sessionRanges.
  cbn [set_randomPos upd state set_asteroids randomSeq combo score asteroids
         particles].
  split; [exact Hrand|]. split; [exact Hc|]. split; [exact Hs|].
  split; [|exact Hps].
  apply List.Forall_app. split; [exact Has|]. constructor; [|constructor].
  rewrite Hr. rnum. pose proof (Hrand k4). lra.
Qed.

Lemma checkComboTimeout_ranges (w : World R) :
  sessionRanges w -> sessionRanges (checkComboTimeout w).
Proof.
  intros (Hrand & Hc & Hs & Has & Hps).
  unfold checkComboTimeout. cbn [Date_now].
  destruct (_ && _).
  - unfold sessionRanges. cbn. repeat split; try assumption; try lra; apply Hrand.
  - unfold sessionRanges. cbn. repeat split; try assumption; try lra; apply Hrand.
Qed.

Lemma render_ranges (w : World R) :
  sessionRanges w -> sessionRanges (render w).
Proof.
  intros Hw. unfold render.
  destruct (n_ltb _ _); (eapply sessionRanges_fields; [..|exact Hw]); reflexivity.
Qed.

(** A frame keeps the ranges and never lowers the score. *)
Lemma gameLoop_ranges (s0 currentTime : R) (w w' : World R) :
  sessionRanges w /\ s0 <= score (state w) ->
  gameLoop currentTime w = Some w' ->
  sessionRanges w' /\ s0 <= score (state w').
Proof.
  apply (gameLoop_invariant (fun v => sessionRanges v /\ s0 <= score (state v))).
  - intros t v Hv. exact Hv.
  - intros t v Hv. exact Hv.
  - intros v [Hv Hs]. split; [apply spawnAsteroid_ranges; exact Hv|].
    destruct (spawnAsteroid_keeps v) as (a & k & ->). exact Hs.
  - intros t v Hv. exact Hv.
  - intros i a v [(Hrand & Hc & Hs & Has & Hps) Hs0] Hi. split; [|exact Hs0].
    unfold sessionRanges. cbn [upd state set_asteroids randomSeq combo score
      asteroids particles].
    split; [exact Hrand|]. split; [exact Hc|]. split; [exact Hs|].
    split; [|exact Hps].
    apply Forall_insert; [exact Has|].
    exact (Forall_lookup_1 _ _ _ _ Has Hi).
  - intros i a v [Hv Hs0] Hi.
    assert (Hr : 0 <= a_radius a).
    { destruct Hv as (_ & _ & _ & Has & _).
      pose proof (Forall_lookup_1 _ _ _ _ Has Hi) as Ha. cbv beta in Ha. lra. }
    destruct (destroyAsteroid_ranges i a v Hv Hr) as [Hv' Hs'].
    split; [exact Hv' | lra].
  - intros i a v [Hv Hs0] _.
    destruct (impactAsteroid_ranges i a v Hv) as [Hv' Hs'].
    split; [exact Hv' | rewrite Hs'; exact Hs0].
  - intros v [(Hrand & Hc & Hs & Has & Hps) Hs0]. split; [|exact Hs0].
    unfold sessionRanges. cbn [upd state set_particles randomSeq combo score
      asteroids particles].
    split; [exact Hrand|]. split; [exact Hc|]. split; [exact Hs|].
    split; [exact Has | apply survivors_in_range; exact Hps].
  - intros v [Hv Hs0]. split; [apply checkComboTimeout_ranges; exact Hv|].
    unfold checkComboTimeout. cbn [Date_now]. destruct (_ && _); exact Hs0.
  - intros v [Hv Hs0]. split; [apply render_ranges; exact Hv|].
    unfold render. destruct (n_ltb _ _); exact Hs0.
Qed.

Lemma onHandResults_ranges (hands : option (list (list (Landmark R))))
    (w w' : World R) :
  sessionRanges w -> onHandResults hands w = Some w' -> sessionRanges w'.
Proof.
  intros Hw. unfold onHandResults.
  destruct hands as [[|landmarks others]|].
  - cbv beta iota. destruct (debugMode _); intros [= <-]; exact Hw.
  - destruct (length landmarks <? 21)%nat; [discriminate|].
    destruct (landmarks !! 8%nat); [|discriminate].
    intros [= <-]. exact Hw.
  - cbv beta iota. destruct (debugMode _); intros [= <-]; exact Hw.
Qed.

Lemma startGame_ranges (perfNow : R) (w : World R) :
  (forall k, 0 <= randomSeq w k < 1) ->
  sessionRanges (startGame true perfNow w).
Proof.
  intros Hrand. unfold sessionRanges.
  cbn [startGame negb upd set_lastFrameTime state randomSeq resetGameState
         set_handsReady set_debugMode set_positionHistory set_fingerPosition
         set_lastSpawnTime set_gameTime set_particles set_asteroids set_combo
         set_lives set_score set_isPlaying combo score asteroids particles].
  rnum. split; [exact Hrand|]. split; [lra|]. split; [lra|].
  split; constructor.
Qed.

(** X7. With [Math.random()] in [[0, 1)], the ranges of a session hold after
    [startGame] and are kept by everything the browser calls afterwards:
    the combo stays between 1 and 10, the score is never negative, every
    asteroid has a radius between 30 and 60, and every particle in the store
    has a life in [(0, 1]], a radius in [[0.5, 8]] and a decay in
    [[0.02, 0.04]].  And a frame never lowers the score. *)
Theorem session_ranges_kept (w : World R) :
  (forall k, 0 <= randomSeq w k < 1) ->
  (forall (perfNow : R) (acts : list (Action R)),
     sessionRanges (run acts (startGame true perfNow w)))
  /\ (forall (currentTime : R) (v v' : World R),
        sessionRanges v -> gameLoop currentTime v = Some v' ->
        sessionRanges v' /\ score (state v) <= score (state v')).
Proof.
  intros Hrand. split.
  - intros perfNow acts. apply (run_invariant sessionRanges).
    + intros t v (Hr & _). apply startGame_ranges. exact Hr.
    + intros t v v' Hv Hrun.
      destruct (gameLoop_ranges (score (state v)) t v v') as [Hv' _];
        [split; [exact Hv | lra] | exact Hrun | exact Hv'].
    + exact onHandResults_ranges.
    + apply startGame_ranges. exact Hrand.
  - intros currentTime v v' Hv Hrun.
    apply (gameLoop_ranges (score (state v)) currentTime v v');
      [split; [exact Hv | lra] | exact Hrun].
Qed.

Lemma session_ranges_kept_witness :
  (forall k, 0 <= randomSeq (worldAround (A := R) threeDestroysClock
                               (initialState None)) k < 1)
  /\ sessionRanges
       (run [ActFrame 2500; ActHand (Some [sampleHand]); ActFrame 2516]
          (startGame true 0
             (worldAround (A := R) threeDestroysClock (initialState None)))).
Proof.
  assert (Hrand : forall k,
             0 <= randomSeq (worldAround (A := R) threeDestroysClock
                               (initialState None)) k < 1)
    by (intros k; cbn; lra).
  split; [exact Hrand|].
  destruct (session_ranges_kept _ Hrand) as [Hrun _].
  apply Hrun.
Defined.

(** *** The end of the session *)

Lemma gameLoop_stopped (currentTime : R) (w w' : World R) :
  stoppedWhenNoLife w -> gameLoop currentTime w = Some w' -> stoppedWhenNoLife w'.
Proof.
  apply (gameLoop_invariant stoppedWhenNoLife).
  - intros t v Hv. exact Hv.
  - intros t v Hv. exact Hv.
  - intros v Hv. destruct (spawnAsteroid_keeps v) as (a & k & ->). exact Hv.
  - intros t v Hv. exact Hv.
  - intros i a v Hv _. exact Hv.
  - intros i a v Hv _. unfold stoppedWhenNoLife.
    destruct (destroyAsteroid_frame i a v) as (_ & _ & _ & -> & ->). exact Hv.
  - intros i a v Hv _. unfold stoppedWhenNoLife in *.
    unfold impactAsteroid, loseLife.
    cbn [upd state set_asteroids set_lives lives record set_intensity isPlaying].
    rnum. destruct (Rleb (lives (state v) - 1) 0) eqn:Hle.
    + apply Rleb_true in Hle.
      match goal with |- context [gameOver ?x] =>
        destruct (gameOver_frame x) as (_ & _ & _ & Hl & Hp) end.
      cbn [upd state set_intensity isPlaying lives].
      rewrite Hl, Hp. cbn [upd state set_asteroids set_lives lives record].
      split; [intros _; exact Hle | reflexivity].
    + apply Rleb_false in Hle. cbn [upd state set_lives isPlaying lives].
      split.
      * intros Hp. apply Hv in Hp. rnum. lra.
      * intros Hl. rnum.
        cbn [record upd state set_asteroids lives] in Hl. lra.
  - intros v Hv. exact Hv.
  - intros v Hv. unfold checkComboTimeout. cbn [Date_now].
    destruct (_ && _); exact Hv.
  - intros v Hv. unfold render. destruct (n_ltb _ _); exact Hv.
Qed.

(** X8. From [startGame] on, whatever the browser calls, the session is
    stopped exactly when no life is left: while [isPlaying] holds there is a
    life left, and once the lives are at 0 or below, [isPlaying] is off. *)
Theorem stopped_when_no_life (w : World R) (perfNow : R)
    (acts : list (Action R)) :
  let w' := run acts (startGame true perfNow w) in
  (isPlaying (state w') = false <-> lives (state w') <= 0)
  /\ (isPlaying (state w') = true <-> 0 < lives (state w')).
Proof.
  cbv zeta.
  assert (Hk : stoppedWhenNoLife (run acts (startGame true perfNow w))).
  { apply (run_invariant stoppedWhenNoLife).
    - intros t v _. unfold stoppedWhenNoLife. cbn. unfold initialLives. rnum.
      split; [discriminate | lra].
    - exact (fun t v v' => gameLoop_stopped t v v').
    - intros hands v v' Hv. unfold onHandResults.
      destruct hands as [[|landmarks others]|].
      + cbv beta iota. destruct (debugMode _); intros [= <-]; exact Hv.
      + destruct (length landmarks <? 21)%nat; [discriminate|].
        destruct (landmarks !! 8%nat); [|discriminate].
        intros [= <-]. exact Hv.
      + cbv beta iota. destruct (debugMode _); intros [= <-]; exact Hv.
    - unfold stoppedWhenNoLife. cbn. unfold initialLives. rnum.
      split; [discriminate | lra]. }
  split; [exact Hk|].
  unfold stoppedWhenNoLife in Hk.
  destruct (isPlaying (state (run acts (startGame true perfNow w)))).
  - split; [intros _ | reflexivity].
    destruct (Rlt_dec 0 (lives (state (run acts (startGame true perfNow w)))))
      as [Hlt|Hge]; [exact Hlt|].
    assert (Hf : true = false) by (apply Hk; lra). discriminate.
  - split; [discriminate|]. intros Hl.
    assert (Hle : lives (state (run acts (startGame true perfNow w))) <= 0)
      by (apply Hk; reflexivity).
    lra.
Qed.

(** *** The skin test *)

Lemma Math_abs_gt (d c : R) :
  0 <= c -> (Rltb c (Math_abs d) = true <-> c < d \/ d < - c).
Proof.
  intros Hc. unfold Math_abs. rnum.
  destruct (Rltb d 0) eqn:Hd.
  - apply Rltb_true in Hd. rewrite Rltb_true. split; [intros; right; lra|].
    intros [Hx|Hx]; lra.
  - apply Rltb_false in Hd. rewrite Rltb_true. split; [intros; left; lra|].
    intros [Hx|Hx]; lra.
Qed.

Lemma isZero_true (x : R) : isZero x = true <-> x = 0.
Proof.
  unfold isZero. rnum. rewrite andb_true_iff, !Rleb_true. lra.
Qed.

Lemma isSkinColor_true (r g b : R) :
  isSkinColor r g b = true
  <-> (95 < r /\ 40 < g /\ 20 < b /\ 15 < r - g /\ 15 < r - b)
      \/ (r + g + b <> 0
          /\ 35 / 100 < r / (r + g + b) < 6 / 10
          /\ 25 / 100 < g / (r + g + b) < 4 / 10).
Proof.
  unfold isSkinColor. cbv zeta.
  destruct (isZero (n_add (n_add r g) b)) eqn:Hz.
  - apply isZero_true in Hz. rnum. split; [discriminate|].
    intros [(H1 & H2 & H3 & _)|(Hne & _)]; [lra | contradiction].
  - assert (Hne : r + g + b <> 0).
    { intros Heq. apply isZero_true in Heq. rnum. congruence. }
    rewrite orb_true_iff, !andb_true_iff. unfold frac. rnum.
    rewrite (Math_abs_gt (r - g) 15) by lra. rewrite !Rltb_true.
    split.
    + intros [H1|H2]; [left; lra | right; split; [exact Hne | lra]].
    + intros [H1|(_ & H2)]; [left | right]; repeat split; lra.
Qed.

(** X9. [isSkinColor(r, g, b)] accepts a pixel exactly when [r > 95],
    [g > 40], [b > 20] and [r] exceeds both [g] and [b] by more than 15
    (rule 1), or when the sum of the channels is not 0 and the shares
    [r / sum] and [g / sum] lie strictly between 0.35 and 0.6 and between
    0.25 and 0.4 (rule 2).  For channel values that are not negative, rule 2
    is [0.35 * sum < r < 0.6 * sum] and [0.25 * sum < g < 0.4 * sum]: it
    does not depend on the brightness, so a pixel passes it together with
    all its positive multiples.  A black pixel is rejected before the
    division, and no grey pixel is accepted. *)
Theorem isSkinColor_rule (r g b : R) :
  (isSkinColor r g b = true
   <-> (95 < r /\ 40 < g /\ 20 < b /\ 15 < r - g /\ 15 < r - b)
       \/ (r + g + b <> 0
           /\ 35 / 100 < r / (r + g + b) < 6 / 10
           /\ 25 / 100 < g / (r + g + b) < 4 / 10))
  /\ (0 <= r -> 0 <= g -> 0 <= b ->
        (isSkinColor r g b = true
         <-> (95 < r /\ 40 < g /\ 20 < b /\ 15 < r - g /\ 15 < r - b)
             \/ (35 / 100 * (r + g + b) < r < 6 / 10 * (r + g + b)
                 /\ 25 / 100 * (r + g + b) < g < 4 / 10 * (r + g + b))))
  /\ (forall k : R, 0 < k -> 0 <= r -> 0 <= g -> 0 <= b ->
        35 / 100 * (r + g + b) < r < 6 / 10 * (r + g + b) ->
        25 / 100 * (r + g + b) < g < 4 / 10 * (r + g + b) ->
        isSkinColor (k * r) (k * g) (k * b) = true)
  /\ isSkinColor 0 0 0 = false
  /\ (r = g -> g = b -> isSkinColor r g b = false).
Proof.
  assert (Hshare : forall x s lo hi : R, 0 < s ->
            (lo < x / s < hi <-> lo * s < x < hi * s)).
  { intros x s lo hi Hs. unfold Rdiv. split; intros [Hlo Hhi].
    - split.
      + apply (Rmult_lt_compat_r s) in Hlo; [|exact Hs].
        rewrite Rmult_assoc, Rinv_l in Hlo by lra. lra.
      + apply (Rmult_lt_compat_r s) in Hhi; [|exact Hs].
        rewrite Rmult_assoc, Rinv_l in Hhi by lra. lra.
    - assert (Hi : 0 < / s) by (apply Rinv_0_lt_compat; exact Hs).
      split.
      + apply (Rmult_lt_compat_r (/ s)) in Hlo; [|exact Hi].
        rewrite Rmult_assoc, Rinv_r in Hlo by lra. lra.
      + apply (Rmult_lt_compat_r (/ s)) in Hhi; [|exact Hi].
        rewrite Rmult_assoc, Rinv_r in Hhi by lra. lra. }
  assert (Hnonneg : forall r' g' b' : R, 0 <= r' -> 0 <= g' -> 0 <= b' ->
            (isSkinColor r' g' b' = true
             <-> (95 < r' /\ 40 < g' /\ 20 < b' /\ 15 < r' - g' /\ 15 < r' - b')
                 \/ (35 / 100 * (r' + g' + b') < r' < 6 / 10 * (r' + g' + b')
                     /\ 25 / 100 * (r' + g' + b') < g' < 4 / 10 * (r' + g' + b')))).
  { intros r' g' b' Hr Hg Hb. rewrite isSkinColor_true.
    split; (intros [H1|H2]; [left; exact H1 | right]).
    - destruct H2 as (Hne & Hr2 & Hg2).
      assert (Hs : 0 < r' + g' + b') by lra.
      apply (Hshare r' _ _ _ Hs) in Hr2. apply (Hshare g' _ _ _ Hs) in Hg2.
      split; assumption.
    - destruct H2 as (Hr2 & Hg2).
      assert (Hs : 0 < r' + g' + b') by lra.
      split; [lra|]. split; apply (Hshare _ _ _ _ Hs); assumption. }
  split; [apply isSkinColor_true|]. split; [apply Hnonneg|].
  split; [|split].
  - intros k Hk Hr Hg Hb Hr2 Hg2.
    apply Hnonneg; try (apply Rmult_le_pos; lra).
    right. replace (k * r + k * g + k * b) with (k * (r + g + b)) by ring.
    split; split; nra.
  - apply not_true_is_false. rewrite isSkinColor_true.
    intros [H1|(Hne & _)]; lra.
  - intros -> ->. apply not_true_is_false. rewrite isSkinColor_true.
    intros [H1|(Hne & Hr2 & _)]; [lra|].
    replace (b / (b + b + b)) with (1 / 3) in Hr2 by (field; lra). lra.
Qed.

(** *** The fallback tracker *)

Lemma INR_50 : INR 50 = 50.
Proof. rewrite INR_IZR_INZ. reflexivity. Qed.

Lemma fold_samples (width : nat) (data : nat -> R) (pts : list (nat * nat)) :
  forall sx sy c : R,
    List.fold_left (fun acc p => samplePixel width data (fst p) acc (snd p))
      pts (sx, sy, c)
    = (sx + sumXs (List.filter (skinAt width data) pts),
       sy + sumYs (List.filter (skinAt width data) pts),
       c + INR (length (List.filter (skinAt width data) pts))).
Proof.
  induction pts as [|p pts IH]; intros sx sy c.
  - cbn. f_equal; [f_equal|]; lra.
  - cbn [List.fold_left List.filter]. unfold samplePixel at 2.
    change (isSkinColor (data ((fst p * width + snd p) * 4)%nat)
              (data ((fst p * width + snd p) * 4 + 1)%nat)
              (data ((fst p * width + snd p) * 4 + 2)%nat))
      with (skinAt width data p).
    destruct (skinAt width data p).
    + rewrite IH. cbn [sumXs sumYs List.fold_right length]. rnum.
      rewrite S_INR, <- !INR_IZR_INZ.
      fold (sumXs (List.filter (skinAt width data) pts)).
      fold (sumYs (List.filter (skinAt width data) pts)).
      f_equal; [f_equal|]; lra.
    + apply IH.
Qed.

(** What the two loops of [trackSkinColor] compute: the sums of the
    coordinates of the sampled pixels that pass the skin test, and their
    number. *)
Lemma scanRows_sums (width height : nat) (data : nat -> R) :
  scanRows height width height data 0 (0, 0, 0)
  = (sumXs (skinPoints width height data),
     sumYs (skinPoints width height data),
     INR (length (skinPoints width height data))).
Proof.
  rewrite scanRows_samplePoints.
  rewrite (fold_samples width data (samplePoints width height) 0 0 0).
  unfold skinPoints. f_equal; [f_equal|]; lra.
Qed.

Lemma sums_bounded (width height : nat) (pts : list (nat * nat)) :
  (forall p, In p pts -> (fst p < height)%nat /\ (snd p < width)%nat) ->
  0 <= sumXs pts <= INR width * INR (length pts)
  /\ 0 <= sumYs pts <= INR height * INR (length pts).
Proof.
  induction pts as [|p pts IH]; intros Hall.
  - cbn. lra.
  - destruct IH as [IHx IHy]; [intros q Hq; apply Hall; right; exact Hq|].
    destruct (Hall p (or_introl eq_refl)) as [Hy Hx].
    apply lt_INR in Hy, Hx.
    pose proof (pos_INR (fst p)). pose proof (pos_INR (snd p)).
    cbn [sumXs sumYs List.fold_right length].
    fold (sumXs pts). fold (sumYs pts). rewrite S_INR. split; nra.
Qed.

(** X10. The fallback tracker.  [trackSkinColor] counts the pixels that
    pass the skin test among those at even coordinates of the tracking
    canvas.  With 50 of them or fewer the cursor is marked as not detected,
    and its position and the trail are left as they are.  With more than
    50, the target is their centroid, scaled from the tracking canvas to
    the game canvas (not mirrored again: the frame was drawn mirrored); it
    lies on the game canvas; the cursor becomes detected and moves as for a
    tracker result: [pos + 0.3 * (target - pos)] when it was detected, the
    target itself when not; and the new position is appended to the trail.
    When the video has no frame yet, nothing changes; and [trackLoop] does
    nothing once the session has stopped. *)
Theorem trackSkinColor_rule (width height : nat) (data : nat -> R)
    (w : World R) :
  let pts := skinPoints width height data in
  let n := length pts in
  let gameX := sumXs pts / INR n / INR width * canvasWidth w in
  let gameY := sumYs pts / INR n / INR height * canvasHeight w in
  let fp := fingerPosition (state w) in
  let w' := trackSkinColor true width height data w in
  ((n <= 50)%nat ->
     w' = upd (set_fingerPosition (mkFinger (fp_x fp) (fp_y fp) false)) w)
  /\ ((50 < n)%nat ->
        detected (fingerPosition (state w')) = true
        /\ (detected fp = true ->
              fp_x (fingerPosition (state w')) = fp_x fp + 3 / 10 * (gameX - fp_x fp)
              /\ fp_y (fingerPosition (state w'))
                 = fp_y fp + 3 / 10 * (gameY - fp_y fp))
        /\ (detected fp = false ->
              fp_x (fingerPosition (state w')) = gameX
              /\ fp_y (fingerPosition (state w')) = gameY)
        /\ (let pt := mkPoint (fp_x (fingerPosition (state w')))
                              (fp_y (fingerPosition (state w'))) in
            let old := positionHistory (state w) in
            ((length old < 15)%nat -> positionHistory (state w') = old ++ [pt])
            /\ ((15 <= length old)%nat ->
                  positionHistory (state w') = drop 1 old ++ [pt]))
        /\ (0 <= canvasWidth w -> 0 <= gameX <= canvasWidth w)
        /\ (0 <= canvasHeight w -> 0 <= gameY <= canvasHeight w))
  /\ trackSkinColor false width height data w = w
  /\ (isPlaying (state w) = false ->
        forall ready, trackLoop ready width height data w = w).
Proof.
  cbv zeta. unfold trackSkinColor. cbn [negb].
  rewrite scanRows_sums. cbv beta iota. rnum.
  set (pts := skinPoints width height data).
  set (n := length pts).
  split; [|split; [|split]].
  - intros Hn.
    assert (Hc : Rltb 50 (INR n) = false).
    { apply Rltb_false. rewrite <- INR_50. apply le_INR. exact Hn. }
    rewrite Hc. reflexivity.
  - intros Hn.
    assert (Hc : Rltb 50 (INR n) = true).
    { apply Rltb_true. rewrite <- INR_50. apply lt_INR. exact Hn. }
    rewrite Hc.
    cbn [upd state set_positionHistory set_fingerPosition fingerPosition
           positionHistory].
    assert (HnR : 50 < INR n) by (apply Rltb_true; exact Hc).
    assert (Hbelow : forall p, In p pts ->
              (fst p < height)%nat /\ (snd p < width)%nat).
    { intros p Hp. apply (samplePoints_below width height).
      subst pts. unfold skinPoints in Hp. apply List.filter_In in Hp. tauto. }
    destruct (sums_bounded width height pts Hbelow) as [Hsx Hsy].
    fold n in Hsx, Hsy.
    assert (Hpt : exists p, In p pts).
    { destruct pts as [|p pts']; [cbn in Hn; lia | exists p; left; reflexivity]. }
    destruct Hpt as (p0 & Hp0). destruct (Hbelow p0 Hp0) as [Hh Hw].
    assert (HW : 0 < INR width) by (apply lt_0_INR; lia).
    assert (HH : 0 < INR height) by (apply lt_0_INR; lia).
    assert (Hunit : forall s d : R, 0 < d -> 0 <= s <= d * INR n ->
              0 <= s / INR n / d <= 1).
    { intros s d Hd [Hs0 Hs1]. unfold Rdiv.
      assert (Hin : 0 < / INR n) by (apply Rinv_0_lt_compat; lra).
      assert (Hid : 0 < / d) by (apply Rinv_0_lt_compat; lra).
      split.
      - apply Rmult_le_pos; [apply Rmult_le_pos|]; lra.
      - apply (Rmult_le_reg_r (d * INR n)); [nra|].
        replace (s * / INR n * / d * (d * INR n)) with s by (field; lra).
        lra. }
    pose proof (Hunit _ _ HW Hsx) as Hux. pose proof (Hunit _ _ HH Hsy) as Huy.
    destruct (detected (fingerPosition (state w))).
    + cbn [detected fp_x fp_y]. unfold lerp, fingerSmoothing, frac. rnum.
      rewrite <- !INR_IZR_INZ.
      split; [reflexivity|]. split; [intros _; split; lra|].
      split; [discriminate|]. split; [|split; intros; nra].
      cbv zeta.
      destruct (trail_cases (positionHistory (state w))
                  (mkPoint
                     (fp_x (fingerPosition (state w))
                      + (sumXs pts / INR n / INR width * canvasWidth w
                         - fp_x (fingerPosition (state w))) * (3 / 10))
                     (fp_y (fingerPosition (state w))
                      + (sumYs pts / INR n / INR height * canvasHeight w
                         - fp_y (fingerPosition (state w))) * (3 / 10))))
        as (Hshort & Hfull & _).
      cbv zeta in Hshort, Hfull.
      split; [exact Hshort | intros Hlen; apply Hfull; exact Hlen].
    + cbn [detected fp_x fp_y]. rnum. rewrite <- !INR_IZR_INZ.
      split; [reflexivity|]. split; [discriminate|].
      split; [intros _; split; reflexivity|]. split; [|split; intros; nra].
      cbv zeta.
      destruct (trail_cases (positionHistory (state w))
                  (mkPoint (sumXs pts / INR n / INR width * canvasWidth w)
                           (sumYs pts / INR n / INR height * canvasHeight w)))
        as (Hshort & Hfull & _).
      cbv zeta in Hshort, Hfull.
      split; [exact Hshort | intros Hlen; apply Hfull; exact Hlen].
  - reflexivity.
  - intros Hp ready. unfold trackLoop. rewrite Hp. reflexivity.
Qed.

(** The tracker run in binary64 on two images of 22 by 10 pixels, in a
    fresh session on an 800 by 600 canvas: on the image of skin colour all
    55 sampled pixels pass the test and the cursor is put on the scaled
    centroid, (10 / 22 * 800, 4 / 10 * 600); on the black image none
    passes and the cursor is not detected. *)
Lemma binary64_trackSkinColor :
  length (skinPoints 22 10 (skinImage (A := PrimFloat.float))) = 55%nat
  /\ fingerPosition
       (state (trackSkinColor true 22 10 skinImage
                 (freshSession (A := PrimFloat.float) threeDestroysClock)))
     = mkFinger
         (PrimFloat.mul (PrimFloat.div (Z2F 10) (Z2F 22)) (Z2F 800))
         (PrimFloat.mul (PrimFloat.div (Z2F 4) (Z2F 10)) (Z2F 600)) true
  /\ length (skinPoints 22 10 (blackImage (A := PrimFloat.float))) = 0%nat
  /\ detected
       (fingerPosition
          (state (trackSkinColor true 22 10 blackImage
                    (freshSession (A := PrimFloat.float) threeDestroysClock))))
     = false.
Proof. vm_compute. repeat split; reflexivity. Qed.
